(** * Chronos: reminder capture, inference client and session orchestrator

    A shallow embedding of the TypeScript sources
    - [types.ts]                      (ReminderData, ParseStatus, HistoryItem),
    - [components/ReminderCard.tsx]   (the validity test of a card),
    - [services/geminiService.ts]     (parseInput),
    - [components/AudioRecorder.tsx]  (the audio capture unit),
    - [App.tsx]                       (the session orchestrator),
    followed by the properties of the specification that concern them.

    Conventions.  A JavaScript string is the list of its UTF-16 code units.
    Asynchronous functions are cut at their [await]: the part that runs
    before the suspension and the part that runs when the awaited promise
    settles are separate transitions of a state machine, and whatever the
    platform decides (clock, random identifiers, the provider's reply, the
    codec of the recorder) is a parameter of the transition. *)

From Stdlib Require Import List ZArith NArith QArith Bool String Ascii Lia.
From Stdlib Require Decimal DecimalPos.
Import ListNotations.

Set Implicit Arguments.
Set Warnings "-register-all".
Local Open Scope Z_scope.
Local Open Scope nat_scope.
Local Open Scope string_scope.
Local Open Scope list_scope.

(* ===================================================================== *)
(** * JavaScript values used by the program                               *)
(* ===================================================================== *)

Module JS.

(** A string is a sequence of UTF-16 code units. *)
Definition code_unit := N.
Definition jsstring := list code_unit.

(** The code units of an ASCII literal. *)
Definition js (s : string) : jsstring :=
  map N_of_ascii (list_ascii_of_string s).

Fixpoint eqb (a b : jsstring) : bool :=
  match a, b with
  | [], [] => true
  | x :: a', y :: b' => N.eqb x y && eqb a' b'
  | _, _ => false
  end.

(** [!s] is false exactly for the non-empty strings. *)
Definition truthy (s : jsstring) : bool :=
  match s with [] => false | _ :: _ => true end.

(** [!x] for a value that may be [undefined]. *)
Definition truthy_opt (s : option jsstring) : bool :=
  match s with None => false | Some v => truthy v end.

(** ECMAScript WhiteSpace and LineTerminator code points, the characters
    [String.prototype.trim] removes. *)
Definition isWhiteSpace (c : code_unit) : bool :=
  (N.eqb c 9 || N.eqb c 10 || N.eqb c 11 || N.eqb c 12 || N.eqb c 13
   || N.eqb c 32 || N.eqb c 160 || N.eqb c 5760
   || (N.leb 8192 c && N.leb c 8202)
   || N.eqb c 8232 || N.eqb c 8233 || N.eqb c 8239 || N.eqb c 8287
   || N.eqb c 12288 || N.eqb c 65279)%N.

Fixpoint trimStart (s : jsstring) : jsstring :=
  match s with
  | c :: s' => if isWhiteSpace c then trimStart s' else s
  | [] => []
  end.

Definition trimEnd (s : jsstring) : jsstring := rev (trimStart (rev s)).

Definition trim (s : jsstring) : jsstring := trimEnd (trimStart s).

(** Decimal digits. *)
Definition digit (d : N) : code_unit := (48 + d)%N.

Fixpoint uint_codes (u : Decimal.uint) : jsstring :=
  match u with
  | Decimal.Nil => []
  | Decimal.D0 u' => digit 0 :: uint_codes u'
  | Decimal.D1 u' => digit 1 :: uint_codes u'
  | Decimal.D2 u' => digit 2 :: uint_codes u'
  | Decimal.D3 u' => digit 3 :: uint_codes u'
  | Decimal.D4 u' => digit 4 :: uint_codes u'
  | Decimal.D5 u' => digit 5 :: uint_codes u'
  | Decimal.D6 u' => digit 6 :: uint_codes u'
  | Decimal.D7 u' => digit 7 :: uint_codes u'
  | Decimal.D8 u' => digit 8 :: uint_codes u'
  | Decimal.D9 u' => digit 9 :: uint_codes u'
  end.

(** [n.toString()] for an integral number. *)
Definition Z_toString (z : Z) : jsstring :=
  match z with
  | Z0 => [digit 0]
  | Zpos p => uint_codes (Pos.to_uint p)
  | Zneg p => 45%N :: uint_codes (Pos.to_uint p)
  end.

Definition nat_toString (n : nat) : jsstring := Z_toString (Z.of_nat n).

(** [s.padStart(w, "0")]. *)
Definition padStart0 (w : nat) (s : jsstring) : jsstring :=
  repeat (digit 0) (w - List.length s) ++ s.

(** [s.split(sep)] for a one-character separator. *)
Fixpoint split (sep : code_unit) (s : jsstring) : list jsstring :=
  match s with
  | [] => [[]]
  | c :: s' =>
      if N.eqb c sep then [] :: split sep s'
      else match split sep s' with
           | piece :: rest => (c :: piece) :: rest
           | [] => [[c]]
           end
  end.

(** A JavaScript number: the finite doubles are rationals and are compared
    as such; [NaN] compares false with everything. *)
Inductive number :=
| NaN
| NegInfinity
| Finite (q : Q)
| PosInfinity.

(** [a >= b] on numbers. *)
Definition ge (a b : number) : bool :=
  match a, b with
  | NaN, _ | _, NaN => false
  | PosInfinity, _ => true
  | _, NegInfinity => true
  | NegInfinity, _ => false
  | _, PosInfinity => false
  | Finite x, Finite y => Qle_bool y x
  end.

(** Time values are milliseconds since the epoch, as [Date.now()] gives. *)
Definition msPerDay : Z := 86400000.

(** The civil date of a day number (days since 1970-01-01), proleptic
    Gregorian calendar. *)
Definition civil_from_days (days : Z) : Z * Z * Z :=
  let z := (days + 719468)%Z in
  let era := (z / 146097)%Z in
  let doe := (z - era * 146097)%Z in
  let yoe := ((doe - doe / 1460 + doe / 36524 - doe / 146096) / 365)%Z in
  let doy := (doe - (365 * yoe + yoe / 4 - yoe / 100))%Z in
  let mp := ((5 * doy + 2) / 153)%Z in
  let d := (doy - (153 * mp + 2) / 5 + 1)%Z in
  let m := (if mp <? 10 then mp + 3 else mp - 9)%Z in
  let y := (yoe + era * 400 + (if m <=? 2 then 1 else 0))%Z in
  (y, m, d).

Definition pad (w : nat) (z : Z) : jsstring := padStart0 w (Z_toString z).

(** The time values of a [Date]: at most 8.64e15 milliseconds from the
    epoch on either side.  [Date.now()] and [new Date()] give such a value;
    [toISOString] throws a [RangeError] on a date with any other. *)
Definition validDate (t : Z) : bool :=
  (-8640000000000000 <=? t)%Z && (t <=? 8640000000000000)%Z.

(** [new Date(t).toISOString()] for a time value [t] of a [Date]:
    YYYY-MM-DDTHH:mm:ss.sssZ, with the six-digit signed year outside
    0..9999. *)
Definition toISOString (t : Z) : jsstring :=
  let days := (t / msPerDay)%Z in
  let ms := (t mod msPerDay)%Z in
  let '(y, m, d) := civil_from_days days in
  let year :=
    if ((0 <=? y) && (y <=? 9999))%Z then pad 4 y
    else if (y <? 0)%Z then 45%N :: pad 6 (- y)
    else 43%N :: pad 6 y in
  year ++ js "-" ++ pad 2 m ++ js "-" ++ pad 2 d ++ js "T"
       ++ pad 2 (ms / 3600000) ++ js ":" ++ pad 2 ((ms / 60000) mod 60)
       ++ js ":" ++ pad 2 ((ms / 1000) mod 60) ++ js "."
       ++ pad 3 (ms mod 1000) ++ js "Z".

End JS.

Import JS.

(* ===================================================================== *)
(** * JSON values, objects and [JSON.parse]                               *)
(* ===================================================================== *)

Module Json.

(** What [JSON.parse] can return.  A number keeps the text of its literal:
    nothing below depends on its numeric value. *)
Inductive value :=
| JNull
| JBool (b : bool)
| JNumber (literal : jsstring)
| JString (s : jsstring)
| JArray (elems : list value)
| JObject (props : list (jsstring * value)).

(** An object is the list of its own properties, each name once, in the
    order they were added.  (JavaScript enumerates integer-like names
    first; only lookups by name are made here, and they do not see the
    order.) *)
Definition object := list (jsstring * value).

(** [o[k]], [None] standing for [undefined]. *)
Fixpoint get (k : jsstring) (o : object) : option value :=
  match o with
  | [] => None
  | (k', v) :: o' => if JS.eqb k k' then Some v else get k o'
  end.

(** [o[k] = v]: an existing property is overwritten where it stands, a new
    one is added last. *)
Fixpoint set (k : jsstring) (v : value) (o : object) : object :=
  match o with
  | [] => [(k, v)]
  | (k', v') :: o' =>
      if JS.eqb k k' then (k, v) :: o' else (k', v') :: set k v o'
  end.

(** The properties named [i], [i+1], ... of an array or of a string. *)
Fixpoint indexed (i : nat) (l : list value) : object :=
  match l with
  | [] => []
  | v :: l' => (nat_toString i, v) :: indexed (S i) l'
  end.

(** The own enumerable properties that [{...v}] copies. *)
Definition spread (v : value) : object :=
  match v with
  | JObject props => props
  | JArray elems => indexed 0 elems
  | JString s => indexed 0 (map (fun c => JString [c]) s)
  | JNull | JBool _ | JNumber _ => []
  end.

(** ** The parser *)

Inductive result (A : Type) :=
| Parsed (a : A) (rest : jsstring)
| SyntaxError
| OutOfFuel.
Arguments SyntaxError {A}.
Arguments OutOfFuel {A}.

Definition isJsonSpace (c : code_unit) : bool :=
  (N.eqb c 32 || N.eqb c 9 || N.eqb c 10 || N.eqb c 13)%N.

Fixpoint skip_ws (s : jsstring) : jsstring :=
  match s with
  | c :: s' => if isJsonSpace c then skip_ws s' else s
  | [] => []
  end.

Definition isDigit (c : code_unit) : bool := (N.leb 48 c && N.leb c 57)%N.

Definition hexval (c : code_unit) : option N :=
  if isDigit c then Some (c - 48)%N
  else if (N.leb 97 c && N.leb c 102)%N then Some (c - 87)%N
  else if (N.leb 65 c && N.leb c 70)%N then Some (c - 55)%N
  else None.

Definition hex4 (a b c d : code_unit) : option code_unit :=
  match hexval a, hexval b, hexval c, hexval d with
  | Some x, Some y, Some z, Some w => Some (((x * 16 + y) * 16 + z) * 16 + w)%N
  | _, _, _, _ => None
  end.

(** The single-character escapes. *)
Definition escape (e : code_unit) : option code_unit :=
  if N.eqb e 34 then Some 34%N            (* quote *)
  else if N.eqb e 92 then Some 92%N       (* backslash *)
  else if N.eqb e 47 then Some 47%N       (* slash *)
  else if N.eqb e 98 then Some 8%N        (* b *)
  else if N.eqb e 102 then Some 12%N      (* f *)
  else if N.eqb e 110 then Some 10%N      (* n *)
  else if N.eqb e 114 then Some 13%N      (* r *)
  else if N.eqb e 116 then Some 9%N       (* t *)
  else None.

(** The characters of a string literal after its opening quote, up to and
    including the closing quote. *)
Fixpoint parse_chars (acc : jsstring) (s : jsstring) : result jsstring :=
  match s with
  | [] => SyntaxError
  | c :: s1 =>
      if N.eqb c 34 then Parsed (rev acc) s1
      else if N.eqb c 92 then
        match s1 with
        | [] => SyntaxError
        | e :: s2 =>
            if N.eqb e 117 then
              match s2 with
              | h1 :: h2 :: h3 :: h4 :: s3 =>
                  match hex4 h1 h2 h3 h4 with
                  | Some u => parse_chars (u :: acc) s3
                  | None => SyntaxError
                  end
              | _ => SyntaxError
              end
            else
              match escape e with
              | Some u => parse_chars (u :: acc) s2
              | None => SyntaxError
              end
        end
      else if N.ltb c 32 then SyntaxError
      else parse_chars (c :: acc) s1
  end.

Fixpoint span_digits (s : jsstring) : jsstring * jsstring :=
  match s with
  | c :: s' =>
      if isDigit c then let (ds, r) := span_digits s' in (c :: ds, r)
      else ([], s)
  | [] => ([], [])
  end.

(** A number literal: an optional minus sign; an integer part that is
    either 0 alone or starts with a non-zero digit; an optional fraction (a
    point and at least one digit); an optional exponent (e or E, an optional
    sign, at least one digit). *)
Definition parse_number (s : jsstring) : result jsstring :=
  let (sign, s1) :=
    match s with
    | c :: r => if N.eqb c 45 then ([c], r) else ([], s)
    | [] => ([], s)
    end in
  match s1 with
  | [] => SyntaxError
  | c :: r1 =>
      if negb (isDigit c) then SyntaxError
      else
        let (int, s2) := if N.eqb c 48 then ([c], r1) else span_digits s1 in
        let frac :=
          match s2 with
          | d :: r2 =>
              if N.eqb d 46 then
                match span_digits r2 with
                | ([], _) => None
                | (ds, r3) => Some (d :: ds, r3)
                end
              else Some ([], s2)
          | [] => Some ([], s2)
          end in
        match frac with
        | None => SyntaxError
        | Some (fr, s3) =>
            match s3 with
            | e :: r3 =>
                if (N.eqb e 101 || N.eqb e 69)%N then
                  let (esign, r4) :=
                    match r3 with
                    | g :: r => if (N.eqb g 43 || N.eqb g 45)%N
                                then ([g], r) else ([], r3)
                    | [] => ([], r3)
                    end in
                  match span_digits r4 with
                  | ([], _) => SyntaxError
                  | (ds, r5) =>
                      Parsed (sign ++ int ++ fr ++ e :: esign ++ ds) r5
                  end
                else Parsed (sign ++ int ++ fr) s3
            | [] => Parsed (sign ++ int ++ fr) s3
            end
        end
  end.

Fixpoint strip_prefix (p s : jsstring) : option jsstring :=
  match p, s with
  | [], _ => Some s
  | a :: p', b :: s' => if N.eqb a b then strip_prefix p' s' else None
  | _ :: _, [] => None
  end.

(** A value that is not an object or an array: a string, [true], [false],
    [null] or a number. *)
Definition parse_scalar (s : jsstring) : result value :=
  match s with
  | [] => SyntaxError
  | c :: r =>
      if N.eqb c 34 then                           (* quote *)
        match parse_chars [] r with
        | Parsed str r' => Parsed (JString str) r'
        | SyntaxError => SyntaxError
        | OutOfFuel => OutOfFuel
        end
      else
        match strip_prefix (js "true") s,
              strip_prefix (js "false") s,
              strip_prefix (js "null") s with
        | Some r', _, _ => Parsed (JBool true) r'
        | _, Some r', _ => Parsed (JBool false) r'
        | _, _, Some r' => Parsed JNull r'
        | None, None, None =>
            match parse_number s with
            | Parsed lit r' => Parsed (JNumber lit) r'
            | SyntaxError => SyntaxError
            | OutOfFuel => OutOfFuel
            end
        end
  end.

(** Recursive descent; the fuel bounds the nesting of the calls. *)
Fixpoint parse_value (fuel : nat) (s : jsstring) : result value :=
  match fuel with
  | O => OutOfFuel
  | S fuel' =>
      match skip_ws s with
      | [] => SyntaxError
      | c :: r =>
          if N.eqb c 123 then                      (* opening brace *)
            match skip_ws r with
            | c' :: r' =>
                if N.eqb c' 125 then Parsed (JObject []) r'
                else parse_members fuel' [] r
            | [] => SyntaxError
            end
          else if N.eqb c 91 then                  (* opening bracket *)
            match skip_ws r with
            | c' :: r' =>
                if N.eqb c' 93 then Parsed (JArray []) r'
                else parse_elements fuel' [] r
            | [] => SyntaxError
            end
          else parse_scalar (c :: r)
      end
  end
with parse_elements (fuel : nat) (acc : list value) (s : jsstring)
  : result value :=
  match fuel with
  | O => OutOfFuel
  | S fuel' =>
      match parse_value fuel' s with
      | Parsed v r =>
          match skip_ws r with
          | c :: r' =>
              if N.eqb c 44 then parse_elements fuel' (v :: acc) r'
              else if N.eqb c 93 then Parsed (JArray (rev (v :: acc))) r'
              else SyntaxError
          | [] => SyntaxError
          end
      | SyntaxError => SyntaxError
      | OutOfFuel => OutOfFuel
      end
  end
with parse_members (fuel : nat) (acc : object) (s : jsstring)
  : result value :=
  match fuel with
  | O => OutOfFuel
  | S fuel' =>
      match skip_ws s with
      | q :: r =>
          if negb (N.eqb q 34) then SyntaxError
          else
            match parse_chars [] r with
            | Parsed k r1 =>
                match skip_ws r1 with
                | colon :: r2 =>
                    if negb (N.eqb colon 58) then SyntaxError
                    else
                      match parse_value fuel' r2 with
                      | Parsed v r3 =>
                          match skip_ws r3 with
                          | c :: r4 =>
                              if N.eqb c 44
                              then parse_members fuel' (set k v acc) r4
                              else if N.eqb c 125
                              then Parsed (JObject (set k v acc)) r4
                              else SyntaxError
                          | [] => SyntaxError
                          end
                      | SyntaxError => SyntaxError
                      | OutOfFuel => OutOfFuel
                      end
                | [] => SyntaxError
                end
            | SyntaxError => SyntaxError
            | OutOfFuel => OutOfFuel
            end
      | [] => SyntaxError
      end
  end.

(** [JSON.parse(text)]: one value, then nothing but white space.  [None]
    is the [SyntaxError] exception. *)
Definition parse (text : jsstring) : option value :=
  match parse_value (2 * List.length text + 1) text with
  | Parsed v rest =>
      match skip_ws rest with
      | [] => Some v
      | _ :: _ => None
      end
  | SyntaxError | OutOfFuel => None
  end.

(** For writing JSON texts in examples: the apostrophes of an ASCII literal
    stand for the quotation marks of the text. *)
Definition text (s : string) : jsstring :=
  map (fun c => if N.eqb c 39 then 34%N else c) (js s).

End Json.

Import Json.

(* ===================================================================== *)
(** * types.ts                                                            *)
(* ===================================================================== *)

Record ReminderData := {
  reminder_content : jsstring;
  scheduled_time : jsstring;
  confidence_score : number
}.

Inductive ParseStatus := IDLE | RECORDING | PROCESSING | SUCCESS | ERROR.

Definition ParseStatus_eqb (a b : ParseStatus) : bool :=
  match a, b with
  | IDLE, IDLE | RECORDING, RECORDING | PROCESSING, PROCESSING
  | SUCCESS, SUCCESS | ERROR, ERROR => true
  | _, _ => false
  end.

(** A [HistoryItem] is built at run time as the object
    [{...data, id, createdAt, originalInput}], where [data] is whatever the
    provider's reply parsed to (the cast [as ReminderData] checks nothing),
    so it is kept as an object. *)
Definition HistoryItem := Json.object.

Definition item_id (it : HistoryItem) : option value := get (js "id") it.
Definition item_createdAt (it : HistoryItem) : option value :=
  get (js "createdAt") it.
Definition item_originalInput (it : HistoryItem) : option value :=
  get (js "originalInput") it.

(* ===================================================================== *)
(** * components/ReminderCard.tsx                                         *)
(* ===================================================================== *)

Module ReminderCard.

(** [data.confidence_score >= 0.5] and [data.scheduled_time] is not the
    empty string. *)
Definition isValid (data : ReminderData) : bool :=
  ge (confidence_score data) (Finite (1 # 2))
  && negb (JS.eqb (scheduled_time data) []).

(** The badge of the card. *)
Definition badge (data : ReminderData) : jsstring :=
  if isValid data then js "Scheduled" else js "Failed".

End ReminderCard.

(* ===================================================================== *)
(** * services/geminiService.ts                                           *)
(* ===================================================================== *)

Module GeminiService.

(** The [required] list of [REMINDER_SCHEMA], the response schema sent to
    the provider. *)
Definition REMINDER_SCHEMA_required : list jsstring :=
  [js "reminder_content"; js "scheduled_time"; js "confidence_score"].

(** The argument of [parseInput]: a string, or [{data, mimeType}]. *)
Inductive Input :=
| Text (text : jsstring)
| Audio (data : jsstring) (mimeType : jsstring).

(** The parts of the request's [contents]. *)
Inductive Part :=
| TextPart (text : jsstring)
| InlineData (mimeType : jsstring) (data : jsstring).

(** The request given to [ai.models.generateContent].  Its [config] (system
    instruction, JSON response type, response schema, temperature) is the
    same constant in every call and is left out. *)
Record Request := {
  model : jsstring;
  parts : list Part
}.

(** How the awaited provider call settles: the promise is rejected, or it
    is fulfilled with a response whose [text] may be [undefined]. *)
Inductive Response :=
| Rejected (reason : jsstring)
| Fulfilled (text : option jsstring).

(** The exceptions [parseInput] throws or lets through. *)
Inductive Error :=
| ApiKeyNotFound          (* "API Key not found in environment variables" *)
| ProviderError (reason : jsstring)
| NoResponse              (* "No response from Gemini" *)
| JsonSyntaxError.        (* thrown by JSON.parse *)

(** What the call reads from its surroundings: [process.env.API_KEY], the
    clock and the resolved time zone. *)
Record Env := {
  API_KEY : option jsstring;
  now : Z;
  timeZone : jsstring
}.

(** The value the promise is fulfilled with. *)
Record Output := {
  data : value;
  rawText : jsstring
}.

Definition nl : jsstring := [10%N].

Definition contextPrompt (currentUtc userTimezone : jsstring) : jsstring :=
  nl ++ js "### CONTEXT FOR TIME RESOLUTION" ++ nl
     ++ js "* **NOW Reference (Current UTC Time):** " ++ currentUtc ++ nl
     ++ js "* **User Timezone:** " ++ userTimezone ++ nl
     ++ nl
     ++ js "### TASK" ++ nl
     ++ js "Process the user input provided and return the JSON object." ++ nl
     ++ js "  ".

Definition modelId : jsstring := js "gemini-2.5-flash".

Definition audioInstruction : jsstring :=
  js "The following is an audio recording of the reminder. Transcribe and process it.".

Definition audioPlaceholder : jsstring :=
  js "(Audio Transcription handled by AI)".

Definition contents (prompt : jsstring) (input : Input) : list Part :=
  match input with
  | Text text =>
      [TextPart prompt; TextPart (js "[USER_INPUT]: " ++ text)]
  | Audio d mime =>
      [TextPart prompt; TextPart audioInstruction; InlineData mime d]
  end.

(** The request [parseInput] sends. *)
Definition request (env : Env) (input : Input) : Request :=
  let currentUtc := toISOString (now env) in
  let userTimezone := timeZone env in
  {| model := modelId;
     parts := contents (contextPrompt currentUtc userTimezone) input |}.

(** [parseInput]; [provider] is the awaited [generateContent] call.  The
    function returns the exception or the value of its promise.  The
    [catch] block writes to the console and throws the same error again, so
    it does not show here. *)
Definition parseInput (env : Env) (provider : Request -> Response)
  (input : Input) : Error + Output :=
  if negb (truthy_opt (API_KEY env)) then inl ApiKeyNotFound
  else
    match provider (request env input) with
    | Rejected reason => inl (ProviderError reason)
    | Fulfilled responseText =>
        if negb (truthy_opt responseText) then inl NoResponse
        else
          match responseText with
          | None => inl NoResponse
          | Some body =>
              match Json.parse body with
              | None => inl JsonSyntaxError
              | Some parsedData =>
                  let rawText :=
                    match input with
                    | Text text => text
                    | Audio _ _ => audioPlaceholder
                    end in
                  inr {| data := parsedData; rawText := rawText |}
              end
          end
    end.

(** Whether a parsed reply is an object with the three [ReminderData]
    properties. *)
Definition hasReminderFields (v : value) : bool :=
  match v with
  | JObject props =>
      forallb (fun k => match get k props with
                        | Some _ => true
                        | None => false
                        end)
              REMINDER_SCHEMA_required
  | _ => false
  end.

End GeminiService.

(* ===================================================================== *)
(** * App.tsx: the session orchestrator                                   *)
(* ===================================================================== *)

Module App.

Import GeminiService.

(** What is fixed for a session: the configured key, the time zone, and
    whether the browser has [crypto.randomUUID]. *)
Record Platform := {
  apiKey : option jsstring;
  zone : jsstring;
  hasRandomUUID : bool
}.

(** [generateId]: [crypto.randomUUID ? crypto.randomUUID() :
    Date.now().toString()]; [uuid] is what [crypto.randomUUID()] returns
    when it is called, [t] is the clock. *)
Definition generateId (P : Platform) (uuid : jsstring) (t : Z) : jsstring :=
  if hasRandomUUID P then uuid else Z_toString t.

(** A [processInput] call suspended at [await parseInput(input)]:
    its argument, the clock at its start, the [status] its closure captured
    (the one of the render that created the handler), and whether
    [handleTextSubmit] is awaiting it. *)
Record Call := {
  input : Input;
  started : Z;
  closure_status : ParseStatus;
  fromText : bool
}.

(** A timer set by [setTimeout(_, 2000)] and the [status] its callback sees. *)
Record Timer := {
  due : Z;
  timer_status : ParseStatus
}.

(** The component's state ([useState]), the suspended calls, the timers and
    the clock.  [rendered] lists every status a render has shown, latest
    first: these are the values a closure of some render may hold. *)
Record State := {
  status : ParseStatus;
  textInput : jsstring;
  history : list HistoryItem;
  errorMsg : option jsstring;
  pending : list Call;
  timers : list Timer;
  clock : Z;
  rendered : list ParseStatus
}.

Definition initial (t0 : Z) : State :=
  {| status := IDLE; textInput := []; history := []; errorMsg := None;
     pending := []; timers := []; clock := t0; rendered := [IDLE] |}.

Definition resetDelay : Z := 2000.

Definition failureMessage : jsstring :=
  js "Failed to process input. Please try again.".

(** The list without its [k]-th element. *)
Fixpoint remove_nth {A : Type} (k : nat) (l : list A) : list A :=
  match k, l with
  | _, [] => []
  | O, _ :: l' => l'
  | S k', x :: l' => x :: remove_nth k' l'
  end.

(** [processInput] up to its [await]: [setStatus(PROCESSING)],
    [setErrorMsg(null)], and the call to [parseInput] is under way. *)
Definition processInput (s : State) (captured : ParseStatus) (text : bool)
  (i : Input) : State :=
  {| status := PROCESSING;
     textInput := textInput s;
     history := history s;
     errorMsg := None;
     pending := pending s ++ [{| input := i; started := clock s;
                                 closure_status := captured;
                                 fromText := text |}];
     timers := timers s;
     clock := clock s;
     rendered := rendered s |}.

(** [handleTextSubmit]. *)
Definition handleTextSubmit (s : State) : State :=
  if negb (truthy (trim (textInput s))) then s
  else processInput s (status s) true (Text (textInput s)).

(** [handleAudioComplete], called by the recorder with the handler of the
    render in which the recording was started. *)
Definition handleAudioComplete (s : State) (captured : ParseStatus)
  (base64Data mimeType : jsstring) : State :=
  processInput s captured false (Audio base64Data mimeType).

(** [{...data, id: generateId(), createdAt: new Date().toISOString(),
      originalInput: rawText}] *)
Definition newItem (P : Platform) (out : Output) (uuid : jsstring) (t : Z)
  : HistoryItem :=
  Json.set (js "originalInput") (JString (rawText out))
    (Json.set (js "createdAt") (JString (toISOString t))
       (Json.set (js "id") (JString (generateId P uuid t))
          (spread (data out)))).

(** The outcome of the [parseInput] call of [c] when the provider settles
    with [resp]. *)
Definition outcome (P : Platform) (c : Call) (resp : Response)
  : Error + Output :=
  parseInput {| API_KEY := apiKey P; now := started c; timeZone := zone P |}
             (fun _ => resp) (input c).

(** The rest of [processInput] for the [k]-th suspended call: the [try]
    block after the [await] or the [catch] block, then [finally]; and, for
    a text submission, the [setTextInput] with the empty string that
    follows.  (What the [catch] block writes to the console is left out.) *)
Definition settle (P : Platform) (s : State) (k : nat) (resp : Response)
  (uuid : jsstring) : State :=
  match nth_error (pending s) k with
  | None => s
  | Some c =>
      let timer := {| due := (clock s + resetDelay)%Z;
                      timer_status := closure_status c |} in
      let text := if fromText c then [] else textInput s in
      match outcome P c resp with
      | inr out =>
          {| status := SUCCESS;
             textInput := text;
             history := newItem P out uuid (clock s) :: history s;
             errorMsg := errorMsg s;
             pending := remove_nth k (pending s);
             timers := timers s ++ [timer];
             clock := clock s;
             rendered := rendered s |}
      | inl _ =>
          {| status := ERROR;
             textInput := text;
             history := history s;
             errorMsg := Some failureMessage;
             pending := remove_nth k (pending s);
             timers := timers s ++ [timer];
             clock := clock s;
             rendered := rendered s |}
      end
  end.

(** The callback of [setTimeout]:
    [if (status !== ParseStatus.RECORDING) setStatus(ParseStatus.IDLE)]. *)
Definition fire (s : State) (k : nat) : State :=
  match nth_error (timers s) k with
  | None => s
  | Some t =>
      {| status := if negb (ParseStatus_eqb (timer_status t) RECORDING)
                   then IDLE else status s;
         textInput := textInput s;
         history := history s;
         errorMsg := errorMsg s;
         pending := pending s;
         timers := remove_nth k (timers s);
         clock := clock s;
         rendered := rendered s |}
  end.

(** [onChange] of the text field. *)
Definition change (s : State) (v : jsstring) : State :=
  {| status := status s; textInput := v; history := history s;
     errorMsg := errorMsg s; pending := pending s; timers := timers s;
     clock := clock s; rendered := rendered s |}.

Definition tick (s : State) (dt : Z) : State :=
  {| status := status s; textInput := textInput s; history := history s;
     errorMsg := errorMsg s; pending := pending s; timers := timers s;
     clock := (clock s + dt)%Z; rendered := rendered s |}.

(** After an event React renders again with the new status. *)
Definition render (s : State) : State :=
  {| status := status s; textInput := textInput s; history := history s;
     errorMsg := errorMsg s; pending := pending s; timers := timers s;
     clock := clock s; rendered := status s :: rendered s |}.

Inductive Event :=
| Change (v : jsstring)
| Submit
| AudioComplete (captured : ParseStatus) (base64Data mimeType : jsstring)
| Settle (k : nat) (resp : Response) (uuid : jsstring)
| Fire (k : nat)
| Tick (dt : Z).

Definition step (P : Platform) (s : State) (e : Event) : State :=
  render
    match e with
    | Change v => change s v
    | Submit => handleTextSubmit s
    | AudioComplete captured b m => handleAudioComplete s captured b m
    | Settle k resp uuid => settle P s k resp uuid
    | Fire k => fire s k
    | Tick dt => tick s dt
    end.

(** When an event can happen.  The text field and its button are disabled
    while [status === PROCESSING]; the recorder calls back with a handler
    of an earlier render; a call settles and a timer fires only if it
    exists, the timer not before its delay has elapsed; time does not run
    backwards. *)
Definition enabled (s : State) (e : Event) : bool :=
  match e with
  | Change _ | Submit => negb (ParseStatus_eqb (status s) PROCESSING)
  | AudioComplete captured _ _ =>
      existsb (ParseStatus_eqb captured) (rendered s)
  | Settle k _ _ => Nat.ltb k (List.length (pending s))
  | Fire k =>
      match nth_error (timers s) k with
      | Some t => (due t <=? clock s)%Z
      | None => false
      end
  | Tick dt => (0 <=? dt)%Z
  end.

Fixpoint run (P : Platform) (s : State) (tr : list Event) : State :=
  match tr with
  | [] => s
  | e :: tr' => run P (step P s e) tr'
  end.

(** Every event of the trace is enabled when its turn comes. *)
Fixpoint feasible (P : Platform) (s : State) (tr : list Event) : bool :=
  match tr with
  | [] => true
  | e :: tr' => enabled s e && feasible P (step P s e) tr'
  end.

Inductive reachable (P : Platform) : State -> Prop :=
| reachable_initial (t0 : Z) : reachable P (initial t0)
| reachable_step (s : State) (e : Event) :
    reachable P s -> enabled s e = true -> reachable P (step P s e).

(** The item an event adds to the history, if it adds one. *)
Definition created (P : Platform) (s : State) (e : Event)
  : option HistoryItem :=
  match e with
  | Settle k resp uuid =>
      match nth_error (pending s) k with
      | Some c =>
          match outcome P c resp with
          | inr out => Some (newItem P out uuid (clock s))
          | inl _ => None
          end
      | None => None
      end
  | _ => None
  end.

(** The items created along a trace, in the order of their creation. *)
Fixpoint inserted (P : Platform) (s : State) (tr : list Event)
  : list HistoryItem :=
  match tr with
  | [] => []
  | e :: tr' =>
      match created P s e with
      | Some it => it :: inserted P (step P s e) tr'
      | None => inserted P (step P s e) tr'
      end
  end.

(** The clock of the header:
    [new Date().toISOString().split('T')[1].split('.')[0]], followed by the
    letter Z, when the clock reads [t].  [None] is an exception: the
    [RangeError] of [toISOString], or the [TypeError] of calling [split] on
    [undefined]. *)
Definition headerClock (t : Z) : option jsstring :=
  if validDate t then
    match nth_error (split 84%N (toISOString t)) 1 with
    | None => None
    | Some afterT =>
        match nth_error (split 46%N afterT) 0 with
        | None => None
        | Some hms => Some (hms ++ js "Z")
        end
    end
  else None.

End App.

(* ===================================================================== *)
(** * components/AudioRecorder.tsx: the audio capture unit                *)
(* ===================================================================== *)

Module AudioRecorder.

(** ** Platform objects *)

Record Blob := {
  bytes : list N;          (* octets *)
  type : jsstring
}.

Definition size (b : Blob) : nat := List.length (bytes b).

(** [new Blob(parts, { type })] with a lower-case ASCII [type]. *)
Definition newBlob (blobParts : list Blob) (ty : jsstring) : Blob :=
  {| bytes := List.concat (map bytes blobParts); type := ty |}.

Definition b64char (n : N) : code_unit :=
  (if n <? 26 then 65 + n
   else if n <? 52 then 97 + (n - 26)
   else if n <? 62 then 48 + (n - 52)
   else if n =? 62 then 43 else 47)%N.

Fixpoint base64 (l : list N) : jsstring :=
  match l with
  | a :: b :: c :: r =>
      let w := (a * 65536 + b * 256 + c)%N in
      b64char (w / 262144) :: b64char ((w / 4096) mod 64)
        :: b64char ((w / 64) mod 64) :: b64char (w mod 64) :: base64 r
  | [a; b] =>
      let w := (a * 65536 + b * 256)%N in
      [b64char (w / 262144); b64char ((w / 4096) mod 64);
       b64char ((w / 64) mod 64); 61%N]
  | [a] =>
      let w := (a * 65536)%N in
      [b64char (w / 262144); b64char ((w / 4096) mod 64); 61%N; 61%N]
  | [] => []
  end.

(** The [result] of [FileReader.readAsDataURL(blob)]. *)
Definition dataURL (b : Blob) : jsstring :=
  js "data:"
    ++ (if truthy (type b) then type b else js "application/octet-stream")
    ++ js ";base64," ++ base64 (bytes b).

Inductive TrackState := Live | Ended.

(** A [MediaStream] is the list of its tracks. *)
Definition MediaStream := list TrackState.

Inductive ContextState := Running | Closed.

Inductive RecordingState := Inactive | Recording.

(** A [MediaRecorder]: the stream it records (the one its [onstop] handler
    closes over), the container and codec the platform chose for it, and
    its state. *)
Record MediaRecorder := {
  stream : nat;
  mimeType : jsstring;
  state : RecordingState
}.

(** ** The component *)

(** React state, refs, and the platform objects the component has created,
    each kind in a table indexed by creation order.  [frames] and
    [intervals] hold the identifiers of the animation-frame requests and of
    the intervals that are still scheduled; [reading] the blobs whose
    [FileReader] has not finished; [completed] the calls of
    [onRecordingComplete] so far, in order.  [canvasRef] tells whether the
    canvas exists: it is rendered only while [isRecording] is true, so the
    ref follows that state from one render to the next.  The
    [MediaRecorder] constructor and [start] are taken to succeed. *)
Record State := {
  isRecording : bool;
  recordingTime : nat;
  mediaRecorderRef : option nat;
  chunksRef : list Blob;
  timerRef : option nat;
  canvasRef : bool;
  audioContextRef : option nat;
  analyserRef : option nat;
  dataArrayRef : option nat;
  sourceRef : option nat;
  animationFrameRef : option nat;
  streams : list MediaStream;
  contexts : list ContextState;
  recorders : list MediaRecorder;
  frames : list nat;
  intervals : list nat;
  nextId : nat;
  reading : list Blob;
  completed : list (option jsstring * jsstring);
  alerts : list jsstring
}.

(** The component as first rendered (identifiers handed out by the platform
    are positive). *)
Definition mount : State :=
  {| isRecording := false; recordingTime := 0; mediaRecorderRef := None;
     chunksRef := []; timerRef := None; canvasRef := false;
     audioContextRef := None; analyserRef := None; dataArrayRef := None;
     sourceRef := None; animationFrameRef := None;
     streams := []; contexts := []; recorders := []; frames := [];
     intervals := []; nextId := 1; reading := []; completed := [];
     alerts := [] |}.

(** [if (ref.current)] for a ref holding a number or [null]. *)
Definition truthy_id (r : option nat) : bool :=
  match r with Some (S _) => true | _ => false end.

Fixpoint update {A : Type} (k : nat) (f : A -> A) (l : list A) : list A :=
  match k, l with
  | _, [] => []
  | O, x :: l' => f x :: l'
  | S k', x :: l' => x :: update k' f l'
  end.

Definition remove_id (i : nat) (l : list nat) : list nat :=
  filter (fun j => negb (Nat.eqb i j)) l.

(** [audioContextRef.current.close()] *)
Definition closeContext (r : option nat) (cs : list ContextState)
  : list ContextState :=
  match r with
  | Some c => update c (fun _ => Closed) cs
  | None => cs
  end.

(** [cancelAnimationFrame(animationFrameRef.current)] under its test. *)
Definition cancelFrame (r : option nat) (fs : list nat) : list nat :=
  match r with
  | Some f => if truthy_id r then remove_id f fs else fs
  | None => fs
  end.

(** [clearInterval(timerRef.current)] under its test. *)
Definition clearTimer (r : option nat) (ids : list nat) : list nat :=
  match r with
  | Some i => if truthy_id r then remove_id i ids else ids
  | None => ids
  end.

(** [draw]: [animationFrameRef.current = requestAnimationFrame(draw)],
    then the bars are painted (the canvas is not modelled). *)
Definition draw (s : State) : State :=
  {| isRecording := isRecording s; recordingTime := recordingTime s;
     mediaRecorderRef := mediaRecorderRef s; chunksRef := chunksRef s;
     timerRef := timerRef s; canvasRef := canvasRef s;
     audioContextRef := audioContextRef s; analyserRef := analyserRef s;
     dataArrayRef := dataArrayRef s; sourceRef := sourceRef s;
     animationFrameRef := Some (nextId s);
     streams := streams s; contexts := contexts s; recorders := recorders s;
     frames := frames s ++ [nextId s];
     intervals := intervals s; nextId := S (nextId s);
     reading := reading s; completed := completed s; alerts := alerts s |}.

(** [drawVisualizer]: nothing without a canvas, an analyser and a buffer. *)
Definition drawVisualizer (s : State) : State :=
  match canvasRef s, analyserRef s, dataArrayRef s with
  | true, Some _, Some _ => draw s
  | _, _, _ => s
  end.

(** [startRecording] once [getUserMedia] has given a stream with [tracks]
    live tracks; [mime] is the type the platform's recorder settles on. *)
Definition startRecording (s : State) (tracks : nat) (mime : jsstring)
  : State :=
  let st := List.length (streams s) in
  let ctx := List.length (contexts s) in
  let s1 :=
    drawVisualizer
      {| isRecording := isRecording s; recordingTime := recordingTime s;
         mediaRecorderRef := mediaRecorderRef s; chunksRef := chunksRef s;
         timerRef := timerRef s; canvasRef := canvasRef s;
         audioContextRef := Some ctx; analyserRef := Some ctx;
         dataArrayRef := Some 128; sourceRef := Some st;
         animationFrameRef := animationFrameRef s;
         streams := streams s ++ [repeat Live tracks];
         contexts := contexts s ++ [Running];
         recorders := recorders s; frames := frames s;
         intervals := intervals s; nextId := nextId s;
         reading := reading s; completed := completed s;
         alerts := alerts s |} in
  {| isRecording := true; recordingTime := 0;
     mediaRecorderRef := Some (List.length (recorders s1));
     chunksRef := [];
     timerRef := Some (nextId s1); canvasRef := true;
     audioContextRef := audioContextRef s1; analyserRef := analyserRef s1;
     dataArrayRef := dataArrayRef s1; sourceRef := sourceRef s1;
     animationFrameRef := animationFrameRef s1;
     streams := streams s1; contexts := contexts s1;
     recorders := recorders s1
       ++ [{| stream := st; mimeType := mime; state := Recording |}];
     frames := frames s1;
     intervals := intervals s1 ++ [nextId s1]; nextId := S (nextId s1);
     reading := reading s1; completed := completed s1;
     alerts := alerts s1 |}.

(** [startRecording] when [getUserMedia] is rejected: the [catch] block. *)
Definition startRecording_failed (s : State) : State :=
  {| isRecording := isRecording s; recordingTime := recordingTime s;
     mediaRecorderRef := mediaRecorderRef s; chunksRef := chunksRef s;
     timerRef := timerRef s; canvasRef := canvasRef s;
     audioContextRef := audioContextRef s; analyserRef := analyserRef s;
     dataArrayRef := dataArrayRef s; sourceRef := sourceRef s;
     animationFrameRef := animationFrameRef s;
     streams := streams s; contexts := contexts s; recorders := recorders s;
     frames := frames s; intervals := intervals s; nextId := nextId s;
     reading := reading s; completed := completed s;
     alerts := alerts s
       ++ [js "Could not access microphone. Please check permissions."] |}.

(** [ondataavailable]. *)
Definition ondataavailable (s : State) (chunk : Blob) : State :=
  {| isRecording := isRecording s; recordingTime := recordingTime s;
     mediaRecorderRef := mediaRecorderRef s;
     chunksRef := if Nat.ltb 0 (size chunk) then chunksRef s ++ [chunk]
                  else chunksRef s;
     timerRef := timerRef s; canvasRef := canvasRef s;
     audioContextRef := audioContextRef s; analyserRef := analyserRef s;
     dataArrayRef := dataArrayRef s; sourceRef := sourceRef s;
     animationFrameRef := animationFrameRef s;
     streams := streams s; contexts := contexts s; recorders := recorders s;
     frames := frames s; intervals := intervals s; nextId := nextId s;
     reading := reading s; completed := completed s; alerts := alerts s |}.

Definition webm : jsstring := js "audio/webm".

(** [onstop] of recorder [r]: the blob is built and handed to a
    [FileReader]; then the tracks of the recorder's stream are stopped, the
    context in [audioContextRef] is closed and the frame in
    [animationFrameRef] is cancelled. *)
Definition onstop (s : State) (r : nat) : State :=
  match nth_error (recorders s) r with
  | None => s
  | Some rec =>
      let blob := newBlob (chunksRef s) webm in
      {| isRecording := isRecording s; recordingTime := recordingTime s;
         mediaRecorderRef := mediaRecorderRef s; chunksRef := chunksRef s;
         timerRef := timerRef s; canvasRef := canvasRef s;
         audioContextRef := audioContextRef s; analyserRef := analyserRef s;
         dataArrayRef := dataArrayRef s; sourceRef := sourceRef s;
         animationFrameRef := animationFrameRef s;
         streams := update (stream rec) (map (fun _ => Ended)) (streams s);
         contexts := closeContext (audioContextRef s) (contexts s);
         recorders := recorders s;
         frames := cancelFrame (animationFrameRef s) (frames s);
         intervals := intervals s; nextId := nextId s;
         reading := reading s ++ [blob];
         completed := completed s; alerts := alerts s |}
  end.

(** [reader.onloadend] for the oldest unfinished read:
    [onRecordingComplete(reader.result.split(',')[1], blob.type)]. *)
Definition onloadend (s : State) : State :=
  match reading s with
  | [] => s
  | blob :: rest =>
      let base64String := nth_error (split 44%N (dataURL blob)) 1 in
      {| isRecording := isRecording s; recordingTime := recordingTime s;
         mediaRecorderRef := mediaRecorderRef s; chunksRef := chunksRef s;
         timerRef := timerRef s; canvasRef := canvasRef s;
         audioContextRef := audioContextRef s; analyserRef := analyserRef s;
         dataArrayRef := dataArrayRef s; sourceRef := sourceRef s;
         animationFrameRef := animationFrameRef s;
         streams := streams s; contexts := contexts s;
         recorders := recorders s; frames := frames s;
         intervals := intervals s; nextId := nextId s;
         reading := rest;
         completed := completed s ++ [(base64String, type blob)];
         alerts := alerts s |}
  end.

(** [stopRecording]: the recorder is told to stop (its [dataavailable] and
    [stop] events come later), the timer is cleared. *)
Definition stopRecording (s : State) : State :=
  match mediaRecorderRef s with
  | Some r =>
      if isRecording s then
        {| isRecording := false; recordingTime := recordingTime s;
           mediaRecorderRef := mediaRecorderRef s; chunksRef := chunksRef s;
           timerRef := if truthy_id (timerRef s) then None else timerRef s;
           canvasRef := false;
           audioContextRef := audioContextRef s;
           analyserRef := analyserRef s;
           dataArrayRef := dataArrayRef s; sourceRef := sourceRef s;
           animationFrameRef := animationFrameRef s;
           streams := streams s; contexts := contexts s;
           recorders :=
             update r (fun m => {| stream := stream m;
                                   mimeType := mimeType m;
                                   state := Inactive |}) (recorders s);
           frames := frames s;
           intervals := clearTimer (timerRef s) (intervals s);
           nextId := nextId s;
           reading := reading s; completed := completed s;
           alerts := alerts s |}
      else s
  | None => s
  end.

(** The cleanup of the mount effect, run when the component is discarded. *)
Definition cleanup (s : State) : State :=
  {| isRecording := isRecording s; recordingTime := recordingTime s;
     mediaRecorderRef := mediaRecorderRef s; chunksRef := chunksRef s;
     timerRef := timerRef s; canvasRef := false;
     audioContextRef := audioContextRef s; analyserRef := analyserRef s;
     dataArrayRef := dataArrayRef s; sourceRef := sourceRef s;
     animationFrameRef := animationFrameRef s;
     streams := streams s;
     contexts := closeContext (audioContextRef s) (contexts s);
     recorders := recorders s;
     frames := cancelFrame (animationFrameRef s) (frames s);
     intervals := clearTimer (timerRef s) (intervals s);
     nextId := nextId s;
     reading := reading s; completed := completed s; alerts := alerts s |}.

(** An animation frame whose request [f] is still scheduled runs [draw]. *)
Definition frame (s : State) (f : nat) : State :=
  if existsb (Nat.eqb f) (frames s) then
    draw
      {| isRecording := isRecording s; recordingTime := recordingTime s;
         mediaRecorderRef := mediaRecorderRef s; chunksRef := chunksRef s;
         timerRef := timerRef s; canvasRef := canvasRef s;
         audioContextRef := audioContextRef s; analyserRef := analyserRef s;
         dataArrayRef := dataArrayRef s; sourceRef := sourceRef s;
         animationFrameRef := animationFrameRef s;
         streams := streams s; contexts := contexts s;
         recorders := recorders s; frames := remove_id f (frames s);
         intervals := intervals s; nextId := nextId s;
         reading := reading s; completed := completed s;
         alerts := alerts s |}
  else s.

(** The interval callback: [setRecordingTime(prev => prev + 1)]. *)
Definition second (s : State) (i : nat) : State :=
  if existsb (Nat.eqb i) (intervals s) then
    {| isRecording := isRecording s; recordingTime := S (recordingTime s);
       mediaRecorderRef := mediaRecorderRef s; chunksRef := chunksRef s;
       timerRef := timerRef s; canvasRef := canvasRef s;
       audioContextRef := audioContextRef s; analyserRef := analyserRef s;
       dataArrayRef := dataArrayRef s; sourceRef := sourceRef s;
       animationFrameRef := animationFrameRef s;
       streams := streams s; contexts := contexts s;
       recorders := recorders s; frames := frames s;
       intervals := intervals s; nextId := nextId s;
       reading := reading s; completed := completed s; alerts := alerts s |}
  else s.

(** The platform ends the recording of recorder [r], after [stop()] or
    because its tracks ended: the recorder's [state] is ["inactive"] by the
    time its last [dataavailable] and its [stop] event are fired. *)
Definition halt (s : State) (r : nat) : State :=
  {| isRecording := isRecording s; recordingTime := recordingTime s;
     mediaRecorderRef := mediaRecorderRef s; chunksRef := chunksRef s;
     timerRef := timerRef s; canvasRef := canvasRef s;
     audioContextRef := audioContextRef s; analyserRef := analyserRef s;
     dataArrayRef := dataArrayRef s; sourceRef := sourceRef s;
     animationFrameRef := animationFrameRef s;
     streams := streams s; contexts := contexts s;
     recorders :=
       update r (fun m => {| stream := stream m;
                             mimeType := mimeType m;
                             state := Inactive |}) (recorders s);
     frames := frames s; intervals := intervals s; nextId := nextId s;
     reading := reading s; completed := completed s; alerts := alerts s |}.

(** What happens to the component.  [Granted] and [Denied] settle a
    [getUserMedia] request made by a click on the button while not
    recording; [ClickStop] is a click while recording; [Stopped r chunk] is
    the platform ending the recording of recorder [r], delivering its
    recorded data and then its [stop] event; [Loaded] the end of a
    [FileReader] read. *)
Inductive Event :=
| Granted (tracks : nat) (mime : jsstring)
| Denied
| ClickStop
| Stopped (r : nat) (chunk : Blob)
| Loaded
| Frame (f : nat)
| Second (i : nat)
| Unmount.

Definition step (s : State) (e : Event) : State :=
  match e with
  | Granted tracks mime => startRecording s tracks mime
  | Denied => startRecording_failed s
  | ClickStop => stopRecording s
  | Stopped r chunk => onstop (ondataavailable (halt s r) chunk) r
  | Loaded => onloadend s
  | Frame f => frame s f
  | Second i => second s i
  | Unmount => cleanup s
  end.

Definition run (s : State) (tr : list Event) : State :=
  fold_left step tr s.

(** The three resources of the teardown. *)
Definition allTracksEnded (s : State) : bool :=
  forallb (forallb (fun t => match t with Ended => true | Live => false end))
          (streams s).

Definition allContextsClosed (s : State) : bool :=
  forallb (fun c => match c with Closed => true | Running => false end)
          (contexts s).

Definition noFrameScheduled (s : State) : bool :=
  match frames s with [] => true | _ :: _ => false end.

(** [formatTime]: minutes, a colon, and the seconds padded to two digits. *)
Definition formatTime (seconds : nat) : jsstring :=
  let mins := seconds / 60 in
  let secs := seconds mod 60 in
  nat_toString mins ++ js ":" ++ padStart0 2 (nat_toString secs).

End AudioRecorder.

(* ===================================================================== *)
(** * Concrete sessions used below                                        *)
(* ===================================================================== *)

Module Scenario.

Import GeminiService.

(** A reply with all three fields, and one without [confidence_score]. *)
Definition fullBody : jsstring :=
  Json.text "{'reminder_content':'call mom','scheduled_time':'2024-01-02T17:00:00Z','confidence_score':0.9}".

Definition partialBody : jsstring :=
  Json.text "{'reminder_content':'call mom','scheduled_time':''}".

Definition partialData : value :=
  JObject [(js "reminder_content", JString (js "call mom"));
           (js "scheduled_time", JString [])].

Definition env : Env :=
  {| API_KEY := Some (js "key"); now := 1704067200000%Z;
     timeZone := js "Asia/Tashkent" |}.

(** A browser page served over plain HTTP has no [crypto.randomUUID]. *)
Definition insecure : App.Platform :=
  {| App.apiKey := Some (js "key"); App.zone := js "Asia/Tashkent";
     App.hasRandomUUID := false |}.

Definition secure : App.Platform :=
  {| App.apiKey := Some (js "key"); App.zone := js "Asia/Tashkent";
     App.hasRandomUUID := true |}.

Definition t0 : Z := 1704067200000%Z.

(** One text submission that succeeds after 800 ms. *)
Definition oneCycle : list App.Event :=
  [App.Change (js "call mom tomorrow at 5pm"); App.Submit; App.Tick 800;
   App.Settle 0 (Fulfilled (Some fullBody)) (js "uuid-1")].

(** One text submission whose provider call is rejected. *)
Definition failedCycle : list App.Event :=
  [App.Change (js "call mom tomorrow at 5pm"); App.Submit; App.Tick 800;
   App.Settle 0 (Rejected (js "network")) (js "uuid-1")].

(** A recording finishes encoding just after a text was submitted: both
    calls are under way together, and both replies arrive in the same
    millisecond. *)
Definition twoAtOnce : list App.Event :=
  [App.Change (js "call mom"); App.Submit;
   App.AudioComplete IDLE (js "AAAA") (js "audio/webm");
   App.Tick 1000;
   App.Settle 0 (Fulfilled (Some fullBody)) (js "uuid-1");
   App.Settle 0 (Fulfilled (Some fullBody)) (js "uuid-2")].

(** A second submission is made while the first one's reset is pending:
    the reset fires during the second call. *)
Definition staleReset : list App.Event :=
  [App.Change (js "a"); App.Submit; App.Tick 100;
   App.Settle 0 (Fulfilled (Some fullBody)) (js "uuid-1");
   App.Tick 100; App.Change (js "b"); App.Submit; App.Tick 1900].

Definition mp4 : jsstring := js "audio/mp4".

Definition chunk : AudioRecorder.Blob :=
  {| AudioRecorder.bytes := [26; 69; 223; 163]%N; AudioRecorder.type := mp4 |}.

(** A recording on a platform whose recorder produces MP4, stopped and
    encoded. *)
Definition recordMp4 : list AudioRecorder.Event :=
  [AudioRecorder.Granted 1 mp4; AudioRecorder.ClickStop;
   AudioRecorder.Stopped 0 chunk; AudioRecorder.Loaded].

(** The component is discarded while it records. *)
Definition discardWhileRecording : list AudioRecorder.Event :=
  [AudioRecorder.Granted 1 AudioRecorder.webm; AudioRecorder.Unmount].

End Scenario.

(* ===================================================================== *)
(** * Predicates used in the proofs                                       *)
(* ===================================================================== *)

(** The [rawText] line 103 of the service computes for an input. *)
Definition expectedRawText (i : GeminiService.Input) : jsstring :=
  match i with
  | GeminiService.Text text => text
  | GeminiService.Audio _ _ => GeminiService.audioPlaceholder
  end.

(** No closure ever holds [RECORDING] (nothing sets that status), and no
    suspended call started in the future. *)
Record Inv (s : App.State) : Prop := {
  inv_status : App.status s <> RECORDING;
  inv_rendered : Forall (fun st => st <> RECORDING) (App.rendered s);
  inv_pending :
    Forall (fun c => App.closure_status c <> RECORDING /\
                     (App.started c <= App.clock s)%Z)
           (App.pending s);
  inv_timers :
    Forall (fun t => App.timer_status t <> RECORDING) (App.timers s)
}.

(** Every blob handed to a [FileReader], and every type passed to
    [onRecordingComplete], is the literal ["audio/webm"]. *)
Definition webmOnly (s : AudioRecorder.State) : Prop :=
  Forall (fun b => AudioRecorder.type b = AudioRecorder.webm)
         (AudioRecorder.reading s) /\
  Forall (fun call => snd call = AudioRecorder.webm)
         (AudioRecorder.completed s).

(** ** Decoders, to state round trips *)

(** The digits of a decimal numeral, read back. *)
Fixpoint codes_uint (s : jsstring) : option Decimal.uint :=
  match s with
  | [] => Some Decimal.Nil
  | c :: s' =>
      match codes_uint s' with
      | None => None
      | Some u =>
          if N.eqb c 48 then Some (Decimal.D0 u)
          else if N.eqb c 49 then Some (Decimal.D1 u)
          else if N.eqb c 50 then Some (Decimal.D2 u)
          else if N.eqb c 51 then Some (Decimal.D3 u)
          else if N.eqb c 52 then Some (Decimal.D4 u)
          else if N.eqb c 53 then Some (Decimal.D5 u)
          else if N.eqb c 54 then Some (Decimal.D6 u)
          else if N.eqb c 55 then Some (Decimal.D7 u)
          else if N.eqb c 56 then Some (Decimal.D8 u)
          else if N.eqb c 57 then Some (Decimal.D9 u)
          else None
      end
  end.

(** A non-empty string of digits as a number. *)
Definition parseNat (s : jsstring) : option nat :=
  match s with
  | [] => None
  | _ :: _ => option_map (fun u => N.to_nat (Pos.of_uint u)) (codes_uint s)
  end.

(** A display [m:ss] read back as a number of seconds: the seconds are
    exactly two digits and below 60. *)
Definition parseTime (s : jsstring) : option nat :=
  match split 58%N s with
  | [m; ss] =>
      match parseNat m, parseNat ss with
      | Some a, Some b =>
          if Nat.eqb (List.length ss) 2 && Nat.ltb b 60
          then Some (a * 60 + b) else None
      | _, _ => None
      end
  | _ => None
  end.

(** The value of a base64 digit. *)
Definition unb64 (c : code_unit) : option N :=
  (if (65 <=? c) && (c <=? 90) then Some (c - 65)
   else if (97 <=? c) && (c <=? 122) then Some (c - 71)
   else if (48 <=? c) && (c <=? 57) then Some (c + 4)
   else if c =? 43 then Some 62
   else if c =? 47 then Some 63
   else None)%N.

(** Base64 text back to octets. *)
Fixpoint atob (s : jsstring) : option (list N) :=
  match s with
  | [] => Some []
  | c1 :: c2 :: c3 :: c4 :: rest =>
      match unb64 c1, unb64 c2 with
      | Some n1, Some n2 =>
          if N.eqb c3 61 then
            match rest with
            | [] => if N.eqb c4 61 then Some [((n1 * 64 + n2) / 16)%N] else None
            | _ :: _ => None
            end
          else
            match unb64 c3 with
            | None => None
            | Some n3 =>
                let w18 := ((n1 * 64 + n2) * 64 + n3)%N in
                if N.eqb c4 61 then
                  match rest with
                  | [] => Some [(w18 / 1024)%N; ((w18 / 4) mod 256)%N]
                  | _ :: _ => None
                  end
                else
                  match unb64 c4, atob rest with
                  | Some n4, Some l =>
                      let w := (w18 * 64 + n4)%N in
                      Some ((w / 65536)%N :: ((w / 256) mod 256)%N
                              :: (w mod 256)%N :: l)
                  | _, _ => None
                  end
            end
      | _, _ => None
      end
  | _ => None
  end.

(** The input a request was built from. *)
Definition inputOf (r : GeminiService.Request) : option GeminiService.Input :=
  match GeminiService.parts r with
  | [GeminiService.TextPart _; GeminiService.TextPart u] =>
      option_map GeminiService.Text
                 (Json.strip_prefix (js "[USER_INPUT]: ") u)
  | [GeminiService.TextPart _; GeminiService.TextPart _;
     GeminiService.InlineData m d] => Some (GeminiService.Audio d m)
  | _ => None
  end.

(** ** Predicates on sessions *)

(** Events that neither start nor finish a call: typing, a reset firing,
    time passing. *)
Definition quiet (e : App.Event) : bool :=
  match e with
  | App.Change _ | App.Fire _ | App.Tick _ => true
  | App.Submit | App.AudioComplete _ _ _ | App.Settle _ _ _ => false
  end.

(** The clock reading and the random identifier at each creation of a
    history item along a trace, in order. *)
Fixpoint creations (P : App.Platform) (s : App.State) (tr : list App.Event)
  : list (Z * jsstring) :=
  match tr with
  | [] => []
  | e :: tr' =>
      match e, App.created P s e with
      | App.Settle _ _ uuid, Some _ =>
          (App.clock s, uuid) :: creations P (App.step P s e) tr'
      | _, _ => creations P (App.step P s e) tr'
      end
  end.

(** Whenever the status is [PROCESSING] a call is under way. *)
Definition busyHasCall (s : App.State) : Prop :=
  App.status s = PROCESSING -> App.pending s <> [].



(** Every stream is granted while the component is not recording (the
    button starts a recording only then). *)
Fixpoint orderly (s : AudioRecorder.State) (tr : list AudioRecorder.Event)
  : bool :=
  match tr with
  | [] => true
  | e :: tr' =>
      match e with
      | AudioRecorder.Granted _ _ => negb (AudioRecorder.isRecording s)
      | _ => true
      end && orderly (AudioRecorder.step s e) tr'
  end.

(** The [stop] events of a trace that reach a recorder. *)
Fixpoint stops (s : AudioRecorder.State) (tr : list AudioRecorder.Event)
  : nat :=
  match tr with
  | [] => 0
  | e :: tr' =>
      match e with
      | AudioRecorder.Stopped r _ =>
          if Nat.ltb r (List.length (AudioRecorder.recorders s)) then 1 else 0
      | _ => 0
      end + stops (AudioRecorder.step s e) tr'
  end.

(** The interval callback run [k] times. *)
Fixpoint seconds (s : AudioRecorder.State) (i : nat) (k : nat)
  : AudioRecorder.State :=
  match k with
  | O => s
  | S k' => AudioRecorder.second (seconds s i k') i
  end.

(** The seconds field of the time display. *)
Definition secondsField (r : nat) : jsstring :=
  padStart0 2 (nat_toString r).

(** The seconds field is two characters wide, reads back as its number
    and holds no colon. *)
Definition secondsFieldOk (r : nat) : bool :=
  Nat.eqb (List.length (secondsField r)) 2
  && match parseNat (secondsField r) with
     | Some b => Nat.eqb b r
     | None => false
     end
  && forallb (fun c => negb (N.eqb c 58)) (secondsField r).


(** No frame was ever requested, and the canvas exists only while
    recording. *)
Definition noLoop (s : AudioRecorder.State) : Prop :=
  AudioRecorder.frames s = [] /\
  AudioRecorder.animationFrameRef s = None /\
  (AudioRecorder.canvasRef s = true -> AudioRecorder.isRecording s = true).



(** Hours, minutes and seconds of the day of [t], two digits each. *)
Definition clockText (t : Z) : jsstring :=
  let ms := (t mod msPerDay)%Z in
  pad 2 (ms / 3600000) ++ js ":" ++ pad 2 ((ms / 60000) mod 60)
    ++ js ":" ++ pad 2 ((ms / 1000) mod 60).

(** The calls started, the calls settled and the resets fired along a
    trace: a submission of text that is not blank or a finished recording
    starts a call; a [Settle] or [Fire] counts when the call or the timer
    it names exists. *)
Fixpoint tally (P : App.Platform) (s : App.State) (tr : list App.Event)
  : nat * nat * nat :=
  match tr with
  | [] => (0, 0, 0)
  | e :: tr' =>
      let '(a, b, c) := tally P (App.step P s e) tr' in
      match e with
      | App.Submit =>
          if truthy (trim (App.textInput s)) then (S a, b, c) else (a, b, c)
      | App.AudioComplete _ _ _ => (S a, b, c)
      | App.Settle k _ _ =>
          if Nat.ltb k (List.length (App.pending s)) then (a, S b, c)
          else (a, b, c)
      | App.Fire k =>
          if Nat.ltb k (List.length (App.timers s)) then (a, b, S c)
          else (a, b, c)
      | App.Change _ | App.Tick _ => (a, b, c)
      end
  end.

(** Recorder [r] has been superseded: the component's reference points to
    a later recorder. *)
Definition superseded (r : nat) (s : AudioRecorder.State) : Prop :=
  r < List.length (AudioRecorder.recorders s) /\
  exists r', AudioRecorder.mediaRecorderRef s = Some r' /\ r < r'.


(** Every event but the platform ending the recording of recorder [r]
    itself. *)
Definition sparing (r : nat) (e : AudioRecorder.Event) : bool :=
  match e with
  | AudioRecorder.Stopped r0 _ => negb (Nat.eqb r0 r)
  | _ => true
  end.

(* ===================================================================== *)
(** * Strings and objects                                                 *)
(* ===================================================================== *)

Lemma eqb_eq (a b : jsstring) : JS.eqb a b = true <-> a = b.
Proof.
  revert b; induction a as [|x a IH]; intros [|y b]; simpl;
    try (split; [discriminate | discriminate]); try tauto.
  rewrite andb_true_iff, N.eqb_eq, IH.
  split; [intros [-> ->]; reflexivity | intros H; injection H; auto].
Qed.

Lemma eqb_refl (a : jsstring) : JS.eqb a a = true.
Proof. apply eqb_eq; reflexivity. Qed.

Lemma eqb_neq (a b : jsstring) : JS.eqb a b = false <-> a <> b.
Proof.
  rewrite <- eqb_eq. destruct (JS.eqb a b); split; congruence.
Qed.

(** Reading back the property just written. *)
Lemma get_set_same (k : jsstring) (v : value) (o : object) :
  get k (Json.set k v o) = Some v.
Proof.
  induction o as [|[k' v'] o IH]; simpl.
  - rewrite eqb_refl; reflexivity.
  - destruct (JS.eqb k k') eqn:E; simpl.
    + rewrite eqb_refl; reflexivity.
    + rewrite E; exact IH.
Qed.

(** Writing a property leaves the others as they were. *)
Lemma get_set_other (k k' : jsstring) (v : value) (o : object) :
  k' <> k -> get k' (Json.set k v o) = get k' o.
Proof.
  intros Hne. induction o as [|[k0 v0] o IH]; simpl.
  - apply eqb_neq in Hne. rewrite Hne; reflexivity.
  - destruct (JS.eqb k k0) eqn:E; simpl.
    + apply eqb_eq in E; subst k0.
      apply eqb_neq in Hne. rewrite Hne; reflexivity.
    + rewrite IH; reflexivity.
Qed.

(** A string of white space only is trimmed to the empty string. *)
Lemma trimStart_blank (s : jsstring) :
  forallb isWhiteSpace s = true -> trimStart s = [].
Proof.
  induction s as [|c s IH]; simpl; [reflexivity|].
  intros H; apply andb_true_iff in H as [Hc Hs].
  rewrite Hc; auto.
Qed.

Lemma trim_blank (s : jsstring) :
  forallb isWhiteSpace s = true -> trim s = [].
Proof.
  intros H; unfold trim, trimEnd.
  rewrite (trimStart_blank _ H); reflexivity.
Qed.

(** Conversely, what [trim] empties is white space only. *)
Lemma trimStart_nil_blank (s : jsstring) :
  trimStart s = [] -> forallb isWhiteSpace s = true.
Proof.
  induction s as [|c s IH]; simpl; [reflexivity|].
  destruct (isWhiteSpace c); [auto | discriminate].
Qed.

Lemma trimStart_shape (s : jsstring) :
  trimStart s = [] \/
  exists c r, trimStart s = c :: r /\ isWhiteSpace c = false.
Proof.
  induction s as [|c s IH]; simpl; [left; reflexivity|].
  destruct (isWhiteSpace c) eqn:E; [exact IH|].
  right; exists c, s; auto.
Qed.

Lemma trim_nil_blank (s : jsstring) :
  trim s = [] -> forallb isWhiteSpace s = true.
Proof.
  unfold trim, trimEnd; intros H.
  destruct (trimStart_shape s) as [E | (c & r & E & Hc)].
  - apply trimStart_nil_blank; exact E.
  - exfalso. rewrite E in H.
    assert (Hr : trimStart (rev (c :: r)) = []).
    { destruct (trimStart (rev (c :: r))) as [|y l] eqn:E'; [reflexivity|].
      simpl in H. destruct (rev l); discriminate. }
    apply trimStart_nil_blank in Hr.
    rewrite forallb_forall in Hr.
    assert (In c (rev (c :: r))) by (apply in_rev; rewrite rev_involutive; left; reflexivity).
    rewrite (Hr c H0) in Hc; discriminate.
Qed.

(* ===================================================================== *)
(** * The parser always answers                                           *)
(* ===================================================================== *)

Section ParserFuel.

Import Json.

#[local] Arguments parse_scalar : simpl never.

Ltac break_goal :=
  match goal with
  | |- context [match ?x with _ => _ end] => destruct x eqn:?
  end.

Lemma skip_ws_length (s : jsstring) :
  List.length (skip_ws s) <= List.length s.
Proof.
  induction s as [|c s IH]; simpl; [lia|].
  destruct (isJsonSpace c); simpl; lia.
Qed.

Lemma skip_ws_cons (s : jsstring) (c : code_unit) (r : jsstring) :
  skip_ws s = c :: r -> List.length r < List.length s.
Proof.
  intros H. pose proof (skip_ws_length s) as L. rewrite H in L; simpl in L; lia.
Qed.

Lemma parse_chars_total (n : nat) :
  forall s acc, List.length s <= n ->
    parse_chars acc s <> OutOfFuel /\
    forall str r, parse_chars acc s = Parsed str r ->
                  List.length r < List.length s.
Proof.
  induction n as [|n IH]; intros s acc Hn.
  - destruct s; [|simpl in Hn; lia]. simpl; split; [discriminate|discriminate].
  - destruct s as [|c s1]; [simpl; split; discriminate|].
    simpl in Hn. simpl.
    destruct (N.eqb c 34).
    { split; [discriminate|]. intros str r H; injection H as <- <-; simpl; lia. }
    destruct (N.eqb c 92).
    2:{ destruct (N.ltb c 32); [split; discriminate|].
        destruct (IH s1 (c :: acc)) as [F C]; [lia|].
        split; [exact F|]. intros str r H; apply C in H; simpl; lia. }
    destruct s1 as [|e s2]; [split; discriminate|].
    simpl in Hn.
    destruct (N.eqb e 117).
    + destruct s2 as [|h1 [|h2 [|h3 [|h4 s3]]]]; try (split; discriminate).
      destruct (hex4 h1 h2 h3 h4) as [u|]; [|split; discriminate].
      simpl in Hn.
      destruct (IH s3 (u :: acc)) as [F C]; [lia|].
      split; [exact F|]. intros str r H; apply C in H; simpl; lia.
    + destruct (escape e) as [u|]; [|split; discriminate].
      destruct (IH s2 (u :: acc)) as [F C]; [lia|].
      split; [exact F|]. intros str r H; apply C in H; simpl; lia.
Qed.

Lemma span_digits_length (s ds r : jsstring) :
  span_digits s = (ds, r) -> List.length s = List.length ds + List.length r.
Proof.
  revert ds r; induction s as [|c s IH]; simpl; intros ds r H.
  - injection H as <- <-; reflexivity.
  - destruct (isDigit c).
    + destruct (span_digits s) as [ds' r'] eqn:E.
      injection H as <- <-. simpl. rewrite (IH _ _ eq_refl); reflexivity.
    + injection H as <- <-; reflexivity.
Qed.

Ltac crush_step :=
  match goal with
  | H : Parsed _ _ = Parsed _ _ |- _ => injection H as ? ?; subst
  | H : (_, _) = (_, _) |- _ => injection H as ? ?; subst
  | H : Some _ = Some _ |- _ => injection H as ?; subst
  | H : _ = _ |- _ => discriminate H
  | H : context [match ?x with _ => _ end] |- _ => destruct x eqn:?; simpl in H
  end.

Lemma parse_number_total (s : jsstring) :
  parse_number s <> OutOfFuel /\
  forall lit r, parse_number s = Parsed lit r -> List.length r < List.length s.
Proof.
  unfold parse_number.
  split.
  - repeat break_goal; discriminate.
  - intros lit r H.
    repeat crush_step.
    all: repeat match goal with
         | E : span_digits _ = _ |- _ => apply span_digits_length in E
         end.
    all: simpl in *; try lia.
Qed.

Lemma strip_prefix_length (p s r : jsstring) :
  strip_prefix p s = Some r -> List.length s = List.length p + List.length r.
Proof.
  revert s; induction p as [|a p IH]; intros [|b s]; simpl; intros H;
    try discriminate; try (injection H as <-; reflexivity).
  destruct (N.eqb a b); [|discriminate]. rewrite (IH _ H); reflexivity.
Qed.

Lemma parse_scalar_total (s : jsstring) :
  parse_scalar s <> OutOfFuel /\
  forall v r, parse_scalar s = Parsed v r -> List.length r < List.length s.
Proof.
  unfold parse_scalar.
  destruct s as [|c s]; [split; discriminate|].
  destruct (N.eqb c 34).
  - destruct (@parse_chars_total _ s [] (le_n _)) as [F C].
    destruct (parse_chars [] s) as [str r'| |] eqn:E;
      [|split; discriminate | contradiction].
    split; [discriminate|].
    intros v r H; injection H as <- <-. specialize (C _ _ eq_refl).
    simpl; lia.
  - destruct (strip_prefix (js "true") (c :: s)) as [r1|] eqn:E1.
    { split; [discriminate|]. intros v r H; injection H as <- <-.
      apply strip_prefix_length in E1. simpl in *; lia. }
    destruct (strip_prefix (js "false") (c :: s)) as [r2|] eqn:E2.
    { split; [discriminate|]. intros v r H; injection H as <- <-.
      apply strip_prefix_length in E2. simpl in *; lia. }
    destruct (strip_prefix (js "null") (c :: s)) as [r3|] eqn:E3.
    { split; [discriminate|]. intros v r H; injection H as <- <-.
      apply strip_prefix_length in E3. simpl in *; lia. }
    destruct (parse_number_total (c :: s)) as [F C].
    destruct (parse_number (c :: s)) as [lit r'| |] eqn:E;
      [|split; discriminate | contradiction].
    split; [discriminate|].
    intros v r H; injection H as <- <-. exact (C _ _ eq_refl).
Qed.

(** Every successful parse consumes input. *)
Lemma parse_consumes (fuel : nat) :
  (forall s v r, parse_value fuel s = Parsed v r ->
                 List.length r < List.length s) /\
  (forall acc s v r, parse_elements fuel acc s = Parsed v r ->
                     List.length r < List.length s) /\
  (forall acc s v r, parse_members fuel acc s = Parsed v r ->
                     List.length r < List.length s).
Proof.
  induction fuel as [|fuel (IHv & IHe & IHm)];
    [repeat split; intros; discriminate|].
  repeat split.
  - intros s v r; simpl.
    destruct (skip_ws s) as [|c r0] eqn:E; [discriminate|].
    apply skip_ws_cons in E.
    destruct (N.eqb c 123); [|destruct (N.eqb c 91)].
    + destruct (skip_ws r0) as [|c' r'] eqn:E'; [discriminate|].
      apply skip_ws_cons in E'.
      destruct (N.eqb c' 125).
      * intros H; injection H as <- <-; lia.
      * intros H; apply IHm in H; lia.
    + destruct (skip_ws r0) as [|c' r'] eqn:E'; [discriminate|].
      apply skip_ws_cons in E'.
      destruct (N.eqb c' 93).
      * intros H; injection H as <- <-; lia.
      * intros H; apply IHe in H; lia.
    + intros H; apply parse_scalar_total in H. simpl in H; lia.
  - intros acc s v r; simpl.
    destruct (parse_value fuel s) as [v0 r0| |] eqn:E; try discriminate.
    apply IHv in E.
    destruct (skip_ws r0) as [|c r1] eqn:E1; [discriminate|].
    apply skip_ws_cons in E1.
    destruct (N.eqb c 44); [|destruct (N.eqb c 93)]; try discriminate.
    + intros H; apply IHe in H; lia.
    + intros H; injection H as <- <-; lia.
  - intros acc s v r; simpl.
    destruct (skip_ws s) as [|q r0] eqn:E; [discriminate|].
    apply skip_ws_cons in E.
    destruct (negb (N.eqb q 34)); [discriminate|].
    destruct (parse_chars [] r0) as [k r1| |] eqn:Ek; try discriminate.
    apply (@parse_chars_total _ r0 [] (le_n _)) in Ek.
    destruct (skip_ws r1) as [|colon r2] eqn:E2; [discriminate|].
    apply skip_ws_cons in E2.
    destruct (negb (N.eqb colon 58)); [discriminate|].
    destruct (parse_value fuel r2) as [v0 r3| |] eqn:Ev; try discriminate.
    apply IHv in Ev.
    destruct (skip_ws r3) as [|c r4] eqn:E4; [discriminate|].
    apply skip_ws_cons in E4.
    destruct (N.eqb c 44); [|destruct (N.eqb c 125)]; try discriminate.
    + intros H; apply IHm in H; lia.
    + intros H; injection H as <- <-; lia.
Qed.

(** With fuel above twice the length of the input the parser never runs
    out of it. *)
Lemma parse_fuel (fuel : nat) :
  (forall s, 2 * List.length s + 1 <= fuel ->
             parse_value fuel s <> OutOfFuel) /\
  (forall acc s, 2 * List.length s + 2 <= fuel ->
                 parse_elements fuel acc s <> OutOfFuel) /\
  (forall acc s, 2 * List.length s + 2 <= fuel ->
                 parse_members fuel acc s <> OutOfFuel).
Proof.
  induction fuel as [|fuel (IHv & IHe & IHm)];
    [repeat split; intros; lia|].
  destruct (parse_consumes fuel) as (Cv & Ce & Cm).
  repeat split.
  - intros s Hf; simpl.
    destruct (skip_ws s) as [|c r0] eqn:E; [discriminate|].
    apply skip_ws_cons in E.
    destruct (N.eqb c 123); [|destruct (N.eqb c 91)].
    + destruct (skip_ws r0) as [|c' r'] eqn:E'; [discriminate|].
      destruct (N.eqb c' 125); [discriminate|].
      apply IHm; lia.
    + destruct (skip_ws r0) as [|c' r'] eqn:E'; [discriminate|].
      destruct (N.eqb c' 93); [discriminate|].
      apply IHe; lia.
    + apply parse_scalar_total.
  - intros acc s Hf; simpl.
    destruct (parse_value fuel s) as [v0 r0| |] eqn:E; try discriminate.
    + apply Cv in E.
      destruct (skip_ws r0) as [|c r1] eqn:E1; [discriminate|].
      apply skip_ws_cons in E1.
      destruct (N.eqb c 44); [|destruct (N.eqb c 93)]; try discriminate.
      apply IHe; lia.
    + exfalso; revert E; apply IHv; lia.
  - intros acc s Hf; simpl.
    destruct (skip_ws s) as [|q r0] eqn:E; [discriminate|].
    apply skip_ws_cons in E.
    destruct (negb (N.eqb q 34)); [discriminate|].
    destruct (@parse_chars_total _ r0 [] (le_n _)) as [Fk Ck].
    destruct (parse_chars [] r0) as [k r1| |] eqn:Ek;
      [|discriminate | contradiction].
    specialize (Ck _ _ eq_refl).
    destruct (skip_ws r1) as [|colon r2] eqn:E2; [discriminate|].
    apply skip_ws_cons in E2.
    destruct (negb (N.eqb colon 58)); [discriminate|].
    destruct (parse_value fuel r2) as [v0 r3| |] eqn:Ev; try discriminate.
    + apply Cv in Ev.
      destruct (skip_ws r3) as [|c r4] eqn:E4; [discriminate|].
      apply skip_ws_cons in E4.
      destruct (N.eqb c 44); [|destruct (N.eqb c 125)]; try discriminate.
      apply IHm; lia.
    + exfalso; revert Ev; apply IHv; lia.
Qed.

(** The fuel [Json.parse] gives the parser is enough for every text: its
    [None] is a syntax error or text left over after the value. *)
Lemma parse_fuel_enough (text : jsstring) :
  parse_value (2 * List.length text + 1) text <> OutOfFuel.
Proof. apply parse_fuel; lia. Qed.

Lemma parse_None (text : jsstring) :
  Json.parse text = None ->
  parse_value (2 * List.length text + 1) text = SyntaxError \/
  exists v rest,
    parse_value (2 * List.length text + 1) text = Parsed v rest /\
    skip_ws rest <> [].
Proof.
  unfold Json.parse. pose proof (parse_fuel_enough text) as F.
  destruct (parse_value (2 * List.length text + 1) text) as [v rest| |];
    [|left; reflexivity | contradiction].
  destruct (skip_ws rest) eqn:E; [discriminate|].
  intros _; right; exists v, rest; split; [reflexivity|].
  rewrite E; discriminate.
Qed.

End ParserFuel.

(* ===================================================================== *)
(** * The card                                                            *)
(* ===================================================================== *)

(** C9.  A reminder whose [scheduled_time] is the empty string is invalid
    whatever its [confidence_score]; a reminder whose [confidence_score] is
    at least 0.5 and whose [scheduled_time] is not empty is valid. *)
Theorem isValid_spec (d : ReminderData) :
  (scheduled_time d = [] -> ReminderCard.isValid d = false) /\
  (ge (confidence_score d) (Finite (1 # 2)) = true ->
   scheduled_time d <> [] -> ReminderCard.isValid d = true).
Proof.
  unfold ReminderCard.isValid; split.
  - intros ->; simpl. apply andb_false_r.
  - intros Hc Ht. rewrite Hc; simpl.
    apply eqb_neq in Ht. rewrite Ht; reflexivity.
Qed.

Lemma isValid_spec_witness :
  (ge (Finite (9 # 10)) (Finite (1 # 2)) = true /\
   js "2024-01-02T17:00:00Z" <> [] /\
   ReminderCard.isValid
     {| reminder_content := js "call mom";
        scheduled_time := js "2024-01-02T17:00:00Z";
        confidence_score := Finite (9 # 10) |} = true) /\
  ReminderCard.isValid
    {| reminder_content := js "hello"; scheduled_time := [];
       confidence_score := Finite 1 |} = false.
Proof.
  split; [split; [reflexivity | split; [discriminate |]] |].
  - apply (proj2 (isValid_spec
             {| reminder_content := js "call mom";
                scheduled_time := js "2024-01-02T17:00:00Z";
                confidence_score := Finite (9 # 10) |}));
      [reflexivity | discriminate].
  - apply (proj1 (isValid_spec
             {| reminder_content := js "hello"; scheduled_time := [];
                confidence_score := Finite 1 |})); reflexivity.
Defined.

(* ===================================================================== *)
(** * The inference client                                                *)
(* ===================================================================== *)

Section ParseInput.

Import GeminiService.

Variable env : Env.
Variable provider : Request -> Response.
Variable input : Input.

(** Every way [parseInput] can end, by cases on the key, on how the
    provider call settles and on what [JSON.parse] makes of the body. *)
Lemma parseInput_cases :
  parseInput env provider input =
  if negb (truthy_opt (API_KEY env)) then inl ApiKeyNotFound
  else match provider (request env input) with
       | Rejected reason => inl (ProviderError reason)
       | Fulfilled None | Fulfilled (Some []) => inl NoResponse
       | Fulfilled (Some (c :: body)) =>
           match Json.parse (c :: body) with
           | None => inl JsonSyntaxError
           | Some v => inr {| data := v; rawText := expectedRawText input |}
           end
       end.
Proof.
  unfold parseInput.
  destruct (negb (truthy_opt (API_KEY env))); [reflexivity|].
  destruct (provider (request env input)) as [reason | [[|c body]|]];
    reflexivity.
Qed.

Lemma parseInput_inr (out : Output) :
  parseInput env provider input = inr out ->
  truthy_opt (API_KEY env) = true /\
  exists body,
    provider (request env input) = Fulfilled (Some body) /\
    body <> [] /\
    Json.parse body = Some (data out) /\
    rawText out = expectedRawText input.
Proof.
  rewrite parseInput_cases.
  destruct (truthy_opt (API_KEY env)); simpl; [|discriminate].
  destruct (provider (request env input)) as [reason | [[|c body]|]];
    try discriminate.
  destruct (Json.parse (c :: body)) as [v|] eqn:E; [|discriminate].
  intros H; injection H as <-; simpl.
  split; [reflexivity|].
  exists (c :: body); repeat split; auto; discriminate.
Qed.

End ParseInput.

(** C1, as the code has it.  When the provider's response body is missing
    or empty, or is not parseable as JSON, [parseInput] fails with an error
    and returns no result.  A body that does parse is returned as parsed,
    whatever properties it has: the three fields are asked of the provider
    in the response schema and are not checked by the client. *)
Theorem parseInput_hard_failures
  (env : GeminiService.Env)
  (provider : GeminiService.Request -> GeminiService.Response)
  (input : GeminiService.Input) :
  let reply := provider (GeminiService.request env input) in
  ((reply = GeminiService.Fulfilled None \/
    reply = GeminiService.Fulfilled (Some [])) ->
   exists e, GeminiService.parseInput env provider input = inl e) /\
  (forall body,
     reply = GeminiService.Fulfilled (Some body) ->
     Json.parse body = None ->
     exists e, GeminiService.parseInput env provider input = inl e) /\
  (forall body v,
     truthy_opt (GeminiService.API_KEY env) = true ->
     reply = GeminiService.Fulfilled (Some body) ->
     body <> [] ->
     Json.parse body = Some v ->
     GeminiService.parseInput env provider input =
     inr {| GeminiService.data := v;
            GeminiService.rawText := expectedRawText input |}).
Proof.
  intros reply; subst reply.
  repeat split.
  - intros H; rewrite parseInput_cases.
    destruct (negb _); [eexists; reflexivity|].
    destruct H as [-> | ->]; eexists; reflexivity.
  - intros body H Hp; rewrite parseInput_cases.
    destruct (negb _); [eexists; reflexivity|].
    rewrite H. destruct body as [|c body]; [eexists; reflexivity|].
    rewrite Hp; eexists; reflexivity.
  - intros body v Hk H Hb Hp; rewrite parseInput_cases.
    rewrite Hk, H; simpl.
    destruct body as [|c body]; [congruence|].
    rewrite Hp; reflexivity.
Qed.

(** A case of each kind: no body, an empty body, a body that is not JSON,
    and a body that parses. *)
Lemma parseInput_hard_failures_witness :
  (exists e,
     GeminiService.parseInput Scenario.env
       (fun _ => GeminiService.Fulfilled (Some []))
       (GeminiService.Text (js "call mom")) = inl e) /\
  (Json.parse (js "{") = None /\
   exists e,
     GeminiService.parseInput Scenario.env
       (fun _ => GeminiService.Fulfilled (Some (js "{")))
       (GeminiService.Text (js "call mom")) = inl e) /\
  (Json.parse (js "[]") = Some (JArray []) /\
   GeminiService.parseInput Scenario.env
     (fun _ => GeminiService.Fulfilled (Some (js "[]")))
     (GeminiService.Text (js "call mom")) =
   inr {| GeminiService.data := JArray [];
          GeminiService.rawText := js "call mom" |}).
Proof.
  split; [|split].
  - apply (proj1 (parseInput_hard_failures Scenario.env
                    (fun _ => GeminiService.Fulfilled (Some []))
                    (GeminiService.Text (js "call mom")))).
    right; reflexivity.
  - split; [vm_compute; reflexivity|].
    apply (proj1 (proj2 (parseInput_hard_failures Scenario.env
                    (fun _ => GeminiService.Fulfilled (Some (js "{")))
                    (GeminiService.Text (js "call mom")))) (js "{"));
      [reflexivity | vm_compute; reflexivity].
  - split; [vm_compute; reflexivity|].
    apply (proj2 (proj2 (parseInput_hard_failures Scenario.env
                    (fun _ => GeminiService.Fulfilled (Some (js "[]")))
                    (GeminiService.Text (js "call mom")))) (js "[]"));
      [reflexivity | reflexivity | discriminate | vm_compute; reflexivity].
Defined.

(** C1 as stated does not hold: a body that parses to an object without
    [confidence_score] is returned as the result. *)
Lemma parseInput_accepts_missing_field :
  Json.parse Scenario.partialBody = Some Scenario.partialData /\
  GeminiService.hasReminderFields Scenario.partialData = false /\
  GeminiService.parseInput Scenario.env
    (fun _ => GeminiService.Fulfilled (Some Scenario.partialBody))
    (GeminiService.Text (js "call mom")) =
  inr {| GeminiService.data := Scenario.partialData;
         GeminiService.rawText := js "call mom" |}.
Proof. repeat split; vm_compute; reflexivity. Qed.

(* ===================================================================== *)
(** * The orchestrator: what holds in every reachable state               *)
(* ===================================================================== *)

Lemma ParseStatus_eqb_eq (a b : ParseStatus) :
  ParseStatus_eqb a b = true <-> a = b.
Proof. destruct a, b; simpl; split; congruence. Qed.

Lemma remove_nth_In {A : Type} (k : nat) (l : list A) (x : A) :
  In x (App.remove_nth k l) -> In x l.
Proof.
  revert k; induction l as [|y l IH]; intros [|k]; simpl; auto.
  intros [-> | H]; [left; reflexivity | right; eauto].
Qed.

Lemma Forall_remove_nth {A : Type} (Q : A -> Prop) (k : nat) (l : list A) :
  Forall Q l -> Forall Q (App.remove_nth k l).
Proof.
  rewrite !Forall_forall; intros H x Hx; eauto using remove_nth_In.
Qed.

Lemma Forall_snoc {A : Type} (Q : A -> Prop) (l : list A) (x : A) :
  Forall Q l -> Q x -> Forall Q (l ++ [x]).
Proof. intros; apply Forall_app; split; [assumption | constructor; auto]. Qed.

Section Invariant.

Import App.

Variable P : Platform.

Lemma Inv_initial (t0 : Z) : Inv (initial t0).
Proof.
  constructor; simpl; try constructor; try discriminate; constructor.
Qed.

Lemma Inv_render (s : State) : Inv s -> Inv (render s).
Proof.
  intros [H1 H2 H3 H4]; constructor; simpl; auto.
Qed.

Lemma Inv_processInput (s : State) (captured : ParseStatus) (text : bool)
  (i : GeminiService.Input) :
  Inv s -> captured <> RECORDING -> Inv (processInput s captured text i).
Proof.
  intros [H1 H2 H3 H4] Hc; constructor; simpl; auto; try discriminate.
  apply Forall_snoc; [assumption|]. simpl; split; [assumption | lia].
Qed.

Lemma Inv_settle (s : State) (k : nat) (resp : GeminiService.Response)
  (uuid : jsstring) :
  Inv s -> Inv (settle P s k resp uuid).
Proof.
  intros I; unfold settle.
  destruct (nth_error (pending s) k) as [c|] eqn:E; [|assumption].
  destruct I as [H1 H2 H3 H4].
  assert (Hc : closure_status c <> RECORDING).
  { apply nth_error_In in E. rewrite Forall_forall in H3.
    apply (H3 c E). }
  destruct (outcome P c resp); constructor; simpl;
    auto using Forall_remove_nth, Forall_snoc; discriminate.
Qed.

Lemma Inv_fire (s : State) (k : nat) : Inv s -> Inv (fire s k).
Proof.
  intros I; unfold fire.
  destruct (nth_error (timers s) k) as [t|]; [|assumption].
  destruct I as [H1 H2 H3 H4]; constructor; simpl;
    auto using Forall_remove_nth.
  destruct (negb _); [discriminate | assumption].
Qed.

Lemma Inv_step (s : State) (e : Event) :
  Inv s -> enabled s e = true -> Inv (step P s e).
Proof.
  intros I He; unfold step; apply Inv_render.
  destruct e as [v | | captured b m | k resp uuid | k | dt]; simpl in *.
  - destruct I; constructor; simpl; auto.
  - unfold handleTextSubmit.
    destruct (negb (truthy (trim (textInput s)))); [assumption|].
    apply Inv_processInput; [assumption | apply I].
  - apply Inv_processInput; [assumption|].
    apply existsb_exists in He as (st & Hin & Heq).
    apply ParseStatus_eqb_eq in Heq; subst st.
    destruct I as [_ H2 _ _]. rewrite Forall_forall in H2; auto.
  - apply Inv_settle; assumption.
  - apply Inv_fire; assumption.
  - apply Z.leb_le in He.
    destruct I as [H1 H2 H3 H4]; constructor; simpl; auto.
    eapply Forall_impl; [|exact H3]. simpl; intros c [Ha Hb]; split; [auto|lia].
Qed.

Lemma reachable_Inv (s : State) : reachable P s -> Inv s.
Proof.
  induction 1 as [t0 | s e _ IH He]; [apply Inv_initial | apply Inv_step; auto].
Qed.

(** A feasible trace from the initial state ends in a reachable state. *)
Lemma reachable_run (s : State) (tr : list Event) :
  reachable P s -> feasible P s tr = true -> reachable P (run P s tr).
Proof.
  revert s; induction tr as [|e tr IH]; simpl; intros s Hs Hf; [assumption|].
  apply andb_true_iff in Hf as [He Hf].
  apply IH; [constructor; assumption | assumption].
Qed.

End Invariant.

(* ===================================================================== *)
(** * The orchestrator: submissions                                       *)
(* ===================================================================== *)

(** C6.  A text submission whose input is empty or white space only
    changes nothing: the state after [handleTextSubmit] is the state
    before, so no history item is created, no call to the inference client
    is started and the status is what it was. *)
Theorem blank_submission_ignored (s : App.State) :
  forallb isWhiteSpace (App.textInput s) = true ->
  App.handleTextSubmit s = s /\
  App.history (App.handleTextSubmit s) = App.history s /\
  App.pending (App.handleTextSubmit s) = App.pending s /\
  App.status (App.handleTextSubmit s) = App.status s.
Proof.
  intros H. assert (E : App.handleTextSubmit s = s).
  { unfold App.handleTextSubmit. rewrite (trim_blank _ H); reflexivity. }
  rewrite E; auto.
Qed.

Lemma blank_submission_ignored_witness :
  let s := App.change (App.initial Scenario.t0) [32; 9; 160; 12288]%N in
  forallb isWhiteSpace (App.textInput s) = true /\
  App.handleTextSubmit s = s /\
  App.history (App.handleTextSubmit s) = App.history s /\
  App.pending (App.handleTextSubmit s) = App.pending s /\
  App.status (App.handleTextSubmit s) = App.status s.
Proof.
  split; [reflexivity|].
  apply (blank_submission_ignored
           (App.change (App.initial Scenario.t0) [32; 9; 160; 12288]%N)).
  reflexivity.
Defined.

(** Submitting anything else does start a call. *)
Lemma nonblank_submission_starts (s : App.State) :
  forallb isWhiteSpace (App.textInput s) = false ->
  App.status (App.handleTextSubmit s) = PROCESSING /\
  List.length (App.pending (App.handleTextSubmit s))
  = S (List.length (App.pending s)).
Proof.
  intros H; unfold App.handleTextSubmit.
  destruct (trim (App.textInput s)) as [|c r] eqn:E.
  - apply trim_nil_blank in E; congruence.
  - simpl; split; [reflexivity|]. rewrite length_app; simpl; lia.
Qed.



(** What an event does to the history: it puts the item it creates in
    front, or leaves the history alone. *)
Lemma history_step (P : App.Platform) (s : App.State) (e : App.Event) :
  App.history (App.step P s e) =
  match App.created P s e with
  | Some it => it :: App.history s
  | None => App.history s
  end.
Proof.
  destruct e as [v | | captured b m | k resp uuid | k | dt]; simpl;
    try reflexivity.
  - unfold App.handleTextSubmit.
    destruct (negb (truthy (trim (App.textInput s)))); reflexivity.
  - unfold App.settle.
    destruct (nth_error (App.pending s) k) as [c|]; [|reflexivity].
    destruct (App.outcome P c resp); reflexivity.
  - unfold App.fire.
    destruct (nth_error (App.timers s) k); reflexivity.
Qed.

(** C7.  The item a successful submission creates is at index 0 of the
    history, and after any sequence of events the history is the items
    created along it in reverse order of creation, followed by what the
    history held before. *)
Theorem history_newest_first (P : App.Platform) (s : App.State) :
  (forall e it,
     App.created P s e = Some it ->
     nth_error (App.history (App.step P s e)) 0 = Some it) /\
  (forall tr,
     App.history (App.run P s tr) = rev (App.inserted P s tr) ++ App.history s).
Proof.
  split.
  - intros e it H. rewrite history_step, H; reflexivity.
  - intros tr; revert s; induction tr as [|e tr IH]; intros s; simpl;
      [reflexivity|].
    rewrite IH, history_step.
    destruct (App.created P s e) as [it|]; simpl; [|reflexivity].
    rewrite <- app_assoc; reflexivity.
Qed.

(** Two submissions that succeed one after the other. *)
Lemma history_newest_first_witness :
  let P := Scenario.secure in
  let s := App.run P (App.initial Scenario.t0)
             [App.Change (js "first"); App.Submit; App.Tick 500] in
  let e := App.Settle 0 (GeminiService.Fulfilled (Some Scenario.fullBody))
             (js "uuid-1") in
  let tr := [e; App.Tick 100; App.Change (js "second"); App.Submit;
             App.Tick 700;
             App.Settle 0 (GeminiService.Fulfilled (Some Scenario.fullBody))
               (js "uuid-2")] in
  (exists it,
     App.created P s e = Some it /\
     nth_error (App.history (App.step P s e)) 0 = Some it) /\
  map item_originalInput (App.inserted P s tr)
  = [Some (JString (js "first")); Some (JString (js "second"))] /\
  map item_originalInput (App.history (App.run P s tr))
  = [Some (JString (js "second")); Some (JString (js "first"))] /\
  App.history (App.run P s tr) = rev (App.inserted P s tr) ++ App.history s.
Proof.
  intros P s e tr.
  split; [|split; [vm_compute; reflexivity | split; [vm_compute; reflexivity |]]].
  - destruct (App.created P s e) as [it|] eqn:E; [|vm_compute in E; discriminate].
    exists it; split; [reflexivity|].
    apply (proj1 (history_newest_first P s) e it E).
  - apply (proj2 (history_newest_first P s) tr).
Defined.

(** The three properties the orchestrator writes last are the ones read
    back, whatever the parsed reply contained. *)
Lemma newItem_fields (P : App.Platform) (out : GeminiService.Output)
  (uuid : jsstring) (t : Z) :
  item_id (App.newItem P out uuid t)
  = Some (JString (App.generateId P uuid t)) /\
  item_createdAt (App.newItem P out uuid t)
  = Some (JString (toISOString t)) /\
  item_originalInput (App.newItem P out uuid t)
  = Some (JString (GeminiService.rawText out)).
Proof.
  unfold item_id, item_createdAt, item_originalInput, App.newItem.
  repeat split.
  - rewrite !get_set_other by (apply eqb_neq; reflexivity).
    apply get_set_same.
  - rewrite get_set_other by (apply eqb_neq; reflexivity).
    apply get_set_same.
  - apply get_set_same.
Qed.

Lemma created_inv (P : App.Platform) (s : App.State) (e : App.Event)
  (it : HistoryItem) :
  App.created P s e = Some it ->
  exists k resp uuid c out,
    e = App.Settle k resp uuid /\
    nth_error (App.pending s) k = Some c /\
    App.outcome P c resp = inr out /\
    it = App.newItem P out uuid (App.clock s).
Proof.
  destruct e as [v | | captured b m | k resp uuid | k | dt]; simpl;
    try discriminate.
  destruct (nth_error (App.pending s) k) as [c|] eqn:Ek; [|discriminate].
  destruct (App.outcome P c resp) as [err|out] eqn:Eo; [discriminate|].
  intros H; injection H as <-.
  exists k, resp, uuid, c, out; auto.
Qed.

(** C8.  When [parseInput] succeeds its [rawText] is the input string
    itself for a text input and the one placeholder string for an audio
    input; and when a call settles with success, the history gains, in
    front, an item whose [originalInput] is that [rawText]: the submitted
    string, or the placeholder for a recording. *)
Theorem rawText_is_input_or_placeholder :
  (forall env provider input out,
     GeminiService.parseInput env provider input = inr out ->
     (forall text, input = GeminiService.Text text ->
                   GeminiService.rawText out = text) /\
     (forall d m, input = GeminiService.Audio d m ->
                  GeminiService.rawText out
                  = js "(Audio Transcription handled by AI)")) /\
  (forall P s k c resp uuid out,
     nth_error (App.pending s) k = Some c ->
     App.outcome P c resp = inr out ->
     exists it,
       App.history (App.settle P s k resp uuid) = it :: App.history s /\
       App.history (App.step P s (App.Settle k resp uuid))
       = it :: App.history s /\
       item_originalInput it = Some (JString (GeminiService.rawText out)) /\
       (forall text, App.input c = GeminiService.Text text ->
                     item_originalInput it = Some (JString text)) /\
       (forall d m, App.input c = GeminiService.Audio d m ->
                    item_originalInput it
                    = Some (JString
                              (js "(Audio Transcription handled by AI)")))).
Proof.
  split.
  - intros env provider input out H.
    apply parseInput_inr in H as (_ & body & _ & _ & _ & Hr).
    rewrite Hr; split; [intros text -> | intros d m ->]; reflexivity.
  - intros P s k c resp uuid out Hk Ho.
    exists (App.newItem P out uuid (App.clock s)).
    destruct (newItem_fields P out uuid (App.clock s)) as (_ & _ & Hi).
    assert (Hs : App.history (App.settle P s k resp uuid)
                 = App.newItem P out uuid (App.clock s) :: App.history s).
    { unfold App.settle. rewrite Hk, Ho. reflexivity. }
    split; [exact Hs | split; [exact Hs | split; [exact Hi|]]].
    unfold App.outcome in Ho.
    apply parseInput_inr in Ho as (_ & body & _ & _ & _ & Hr).
    rewrite Hi, Hr.
    split; [intros text -> | intros d m ->]; reflexivity.
Qed.

Lemma rawText_is_input_or_placeholder_witness :
  let P := Scenario.secure in
  let resp := GeminiService.Fulfilled (Some Scenario.fullBody) in
  let typed := App.run P (App.initial Scenario.t0)
                 [App.Change (js "call mom"); App.Submit; App.Tick 800] in
  let spoken := App.run P (App.initial Scenario.t0)
                  [App.AudioComplete IDLE (js "AAAA") (js "audio/webm");
                   App.Tick 800] in
  (exists it,
     App.history (App.step P typed (App.Settle 0 resp (js "uuid-1"))) = [it] /\
     item_originalInput it = Some (JString (js "call mom"))) /\
  (exists it,
     App.history (App.step P spoken (App.Settle 0 resp (js "uuid-2"))) = [it] /\
     item_originalInput it
     = Some (JString (js "(Audio Transcription handled by AI)"))).
Proof.
  intros P resp typed spoken.
  pose (c1 := {| App.input := GeminiService.Text (js "call mom");
                 App.started := Scenario.t0;
                 App.closure_status := IDLE; App.fromText := true |}).
  pose (c2 := {| App.input := GeminiService.Audio (js "AAAA") (js "audio/webm");
                 App.started := Scenario.t0;
                 App.closure_status := IDLE; App.fromText := false |}).
  assert (K1 : nth_error (App.pending typed) 0 = Some c1)
    by (vm_compute; reflexivity).
  assert (K2 : nth_error (App.pending spoken) 0 = Some c2)
    by (vm_compute; reflexivity).
  destruct (App.outcome P c1 resp) as [e1|out1] eqn:O1;
    [vm_compute in O1; discriminate|].
  destruct (App.outcome P c2 resp) as [e2|out2] eqn:O2;
    [vm_compute in O2; discriminate|].
  split.
  - destruct (proj2 rawText_is_input_or_placeholder
                P typed 0 c1 resp (js "uuid-1") out1 K1 O1)
      as (it & _ & Hh & _ & Ht & _).
    exists it; split; [exact Hh | apply (Ht (js "call mom")); reflexivity].
  - destruct (proj2 rawText_is_input_or_placeholder
                P spoken 0 c2 resp (js "uuid-2") out2 K2 O2)
      as (it & _ & Hh & _ & _ & Ha).
    exists it; split;
      [exact Hh | apply (Ha (js "AAAA") (js "audio/webm")); reflexivity].
Defined.


(* ===================================================================== *)
(** * The orchestrator: the delayed reset                                 *)
(* ===================================================================== *)




(* ===================================================================== *)
(** * The audio capture unit                                              *)
(* ===================================================================== *)

Section Recorder.

Import AudioRecorder.

Lemma webmOnly_drawVisualizer (s : State) :
  webmOnly s -> webmOnly (drawVisualizer s).
Proof.
  unfold drawVisualizer.
  destruct (canvasRef s), (analyserRef s), (dataArrayRef s); auto.
Qed.

Lemma webmOnly_step (s : State) (e : Event) :
  webmOnly s -> webmOnly (step s e).
Proof.
  intros H.
  destruct e as [tracks mime | | | r chunk | | f | i | ]; simpl.
  - unfold startRecording.
    match goal with
    | |- context [drawVisualizer ?x] =>
        assert (H' : webmOnly (drawVisualizer x))
          by (apply webmOnly_drawVisualizer; exact H)
    end.
    exact H'.
  - exact H.
  - unfold stopRecording.
    destruct (mediaRecorderRef s); [destruct (isRecording s)|]; exact H.
  - unfold onstop; simpl.
    destruct (nth_error _ r); [|exact H].
    destruct H as [H1 H2]; split; simpl; [|exact H2].
    apply Forall_snoc; [exact H1 | reflexivity].
  - unfold onloadend.
    destruct (reading s) as [|blob rest] eqn:E; [exact H|].
    destruct H as [H1 H2]; rewrite E in H1; inversion H1; subst.
    split; simpl; [assumption|].
    apply Forall_snoc; [exact H2 | assumption].
  - unfold frame. destruct (existsb _ _); exact H.
  - unfold second. destruct (existsb _ _); exact H.
  - exact H.
Qed.

Lemma webmOnly_run (tr : list Event) (s : State) :
  webmOnly s -> webmOnly (run s tr).
Proof.
  revert s; induction tr as [|e tr IH]; intros s H; simpl; [exact H|].
  apply IH, webmOnly_step, H.
Qed.

End Recorder.

(** C2 fails on the code.  Whatever type the platform's recorder reports,
    every call of the completion callback passes ["audio/webm"]: the type
    is the literal given to the [Blob] constructor in [onstop].  With a
    recorder that reports ["audio/mp4"], the callback still gets
    ["audio/webm"]. *)
Theorem callback_type_is_literal :
  (forall tr call,
     In call (AudioRecorder.completed
                (AudioRecorder.run AudioRecorder.mount tr)) ->
     snd call = js "audio/webm") /\
  let s := AudioRecorder.run AudioRecorder.mount Scenario.recordMp4 in
  map AudioRecorder.mimeType (AudioRecorder.recorders s) = [js "audio/mp4"] /\
  AudioRecorder.completed s = [(Some (js "GkXfow=="), js "audio/webm")].
Proof.
  split.
  - intros tr call Hin.
    assert (H : webmOnly (AudioRecorder.run AudioRecorder.mount tr)).
    { apply webmOnly_run; split; constructor. }
    destruct H as [_ H]. rewrite Forall_forall in H. apply (H call Hin).
  - split; vm_compute; reflexivity.
Qed.

(** What [onstop] releases: the tracks of the stopped recorder's stream,
    the context in [audioContextRef], the frame in [animationFrameRef]. *)
Lemma update_nth {A : Type} (f : A -> A) (l : list A) (k : nat) :
  nth_error (AudioRecorder.update k f l) k = option_map f (nth_error l k).
Proof.
  revert k; induction l as [|x l IH]; intros [|k]; simpl; auto.
Qed.

Lemma onstop_releases (s : AudioRecorder.State) (r : nat)
  (rec : AudioRecorder.MediaRecorder) (tracks : AudioRecorder.MediaStream) :
  nth_error (AudioRecorder.recorders s) r = Some rec ->
  nth_error (AudioRecorder.streams s) (AudioRecorder.stream rec)
  = Some tracks ->
  let s' := AudioRecorder.onstop s r in
  nth_error (AudioRecorder.streams s') (AudioRecorder.stream rec)
  = Some (map (fun _ => AudioRecorder.Ended) tracks) /\
  (forall c, AudioRecorder.audioContextRef s = Some c ->
             c < List.length (AudioRecorder.contexts s) ->
             nth_error (AudioRecorder.contexts s') c
             = Some AudioRecorder.Closed) /\
  (forall f, AudioRecorder.animationFrameRef s = Some (S f) ->
             ~ In (S f) (AudioRecorder.frames s')).
Proof.
  intros Hr Hs; unfold AudioRecorder.onstop; rewrite Hr; simpl.
  repeat split.
  - rewrite update_nth, Hs; reflexivity.
  - intros c Hc Hlt; rewrite Hc; simpl. rewrite update_nth.
    destruct (nth_error (AudioRecorder.contexts s) c) eqn:E; [reflexivity|].
    apply nth_error_None in E; lia.
  - intros f Hf; rewrite Hf; simpl.
    unfold AudioRecorder.remove_id; rewrite filter_In.
    intros [_ H]. rewrite Nat.eqb_refl in H; discriminate.
Qed.

(** C4 fails on the code.  The cleanup run when the component is discarded
    never touches the streams: a recording that is under way keeps its
    microphone track live, although the context is closed and no frame is
    scheduled.  A stopped recording, by contrast, releases all three. *)
Theorem discard_keeps_microphone :
  (forall s, AudioRecorder.streams (AudioRecorder.cleanup s)
             = AudioRecorder.streams s) /\
  (let s := AudioRecorder.run AudioRecorder.mount
              Scenario.discardWhileRecording in
   AudioRecorder.streams s = [[AudioRecorder.Live]] /\
   AudioRecorder.allTracksEnded s = false /\
   AudioRecorder.allContextsClosed s = true /\
   AudioRecorder.noFrameScheduled s = true) /\
  (let s := AudioRecorder.run AudioRecorder.mount Scenario.recordMp4 in
   AudioRecorder.allTracksEnded s = true /\
   AudioRecorder.allContextsClosed s = true /\
   AudioRecorder.noFrameScheduled s = true).
Proof.
  split; [intros s; reflexivity|].
  split; repeat split; vm_compute; reflexivity.
Qed.

(** The spec's scenario of two recordings made and stopped one after the
    other: every track is ended, both contexts are closed, no frame is
    scheduled and no interval is left. *)
Example two_recordings_in_sequence :
  let s := AudioRecorder.run AudioRecorder.mount
             [AudioRecorder.Granted 1 Scenario.mp4; AudioRecorder.ClickStop;
              AudioRecorder.Stopped 0 Scenario.chunk; AudioRecorder.Loaded;
              AudioRecorder.Granted 2 Scenario.mp4; AudioRecorder.ClickStop;
              AudioRecorder.Stopped 1 Scenario.chunk; AudioRecorder.Loaded] in
  AudioRecorder.allTracksEnded s = true /\
  AudioRecorder.allContextsClosed s = true /\
  AudioRecorder.noFrameScheduled s = true /\
  AudioRecorder.intervals s = [] /\
  List.length (AudioRecorder.completed s) = 2.
Proof. repeat split; vm_compute; reflexivity. Qed.

(* ===================================================================== *)
(** * The model on concrete inputs                                        *)
(* ===================================================================== *)

Example toISOString_epoch :
  toISOString 0 = js "1970-01-01T00:00:00.000Z".
Proof. vm_compute; reflexivity. Qed.

Example toISOString_2024 :
  toISOString 1704067200000 = js "2024-01-01T00:00:00.000Z".
Proof. vm_compute; reflexivity. Qed.

Example toISOString_leap_day :
  toISOString 1709251199999 = js "2024-02-29T23:59:59.999Z".
Proof. vm_compute; reflexivity. Qed.

Example trim_example : trim (js "  call mom ") = js "call mom".
Proof. vm_compute; reflexivity. Qed.

Example split_example :
  split 44%N (js "data:audio/webm;base64,GkXfow==")
  = [js "data:audio/webm;base64"; js "GkXfow=="].
Proof. vm_compute; reflexivity. Qed.

Example parse_nested :
  Json.parse (Json.text "{ 'a' : 'x', 'b': [1, -2.5e+3, true, null], 'a': {} }")
  = Some (JObject [(js "a", JObject []);
                   (js "b", JArray [JNumber (js "1"); JNumber (js "-2.5e+3");
                                    JBool true; JNull])]).
Proof. vm_compute; reflexivity. Qed.

Example parse_rejects :
  map Json.parse [js ""; js " "; js "{"; js "01"; js "[1,]"; js "nul";
                  Json.text "{'a' 1}"; Json.text "'\x'"; js "1 2"; js "-"]
  = repeat None 10.
Proof. vm_compute; reflexivity. Qed.

Example parse_accepts :
  map Json.parse [js "0"; js " [ ] "; js "{}"; Json.text "'A\n'"; js "-0.5E-2"]
  = [Some (JNumber (js "0")); Some (JArray []); Some (JObject []);
     Some (JString [65; 10]%N); Some (JNumber (js "-0.5E-2"))].
Proof. vm_compute; reflexivity. Qed.

Example parse_full_reply :
  option_map GeminiService.hasReminderFields (Json.parse Scenario.fullBody)
  = Some true.
Proof. vm_compute; reflexivity. Qed.

(** A text submission that succeeds: one item, status [SUCCESS], the text
    field emptied, one reset scheduled 2000 ms after the reply. *)
Example one_cycle :
  let s := App.run Scenario.secure (App.initial Scenario.t0)
             Scenario.oneCycle in
  App.status s = SUCCESS /\ App.textInput s = [] /\ App.errorMsg s = None /\
  map item_id (App.history s) = [Some (JString (js "uuid-1"))] /\
  App.timers s = [{| App.due := (Scenario.t0 + 2800)%Z;
                     App.timer_status := IDLE |}].
Proof. repeat split; vm_compute; reflexivity. Qed.

(** The same submission with the provider call rejected. *)
Example failed_cycle :
  let s := App.run Scenario.secure (App.initial Scenario.t0)
             Scenario.failedCycle in
  App.status s = ERROR /\ App.history s = [] /\
  App.errorMsg s = Some (js "Failed to process input. Please try again.") /\
  App.timers s = [{| App.due := (Scenario.t0 + 2800)%Z;
                     App.timer_status := IDLE |}].
Proof. repeat split; vm_compute; reflexivity. Qed.

(* ===================================================================== *)
(** * Further properties of the orchestrator                              *)
(* ===================================================================== *)

(** The status is never [RECORDING]: no transition of the orchestrator
    sets it, so no render ever shows it. *)
Theorem status_never_recording (P : App.Platform) (s : App.State) :
  App.reachable P s ->
  App.status s <> RECORDING /\ ~ In RECORDING (App.rendered s).
Proof.
  intros Hr; apply reachable_Inv in Hr; destruct Hr as [H1 H2 _ _].
  split; [exact H1|].
  rewrite Forall_forall in H2. intros Hin; apply (H2 _ Hin); reflexivity.
Qed.

Lemma status_never_recording_witness :
  let s := App.run Scenario.secure (App.initial Scenario.t0)
             Scenario.staleReset in
  App.status s <> RECORDING /\ ~ In RECORDING (App.rendered s).
Proof.
  intros s.
  apply (@status_never_recording Scenario.secure s).
  apply reachable_run; [constructor | vm_compute; reflexivity].
Defined.

Lemma busyHasCall_step (P : App.Platform) (s : App.State) (e : App.Event) :
  busyHasCall s -> busyHasCall (App.step P s e).
Proof.
  unfold busyHasCall; intros H.
  destruct e as [v | | captured b m | k resp uuid | k | dt]; simpl; auto.
  - unfold App.handleTextSubmit.
    destruct (negb (truthy (trim (App.textInput s)))); [exact H|].
    simpl; intros _ E; apply app_eq_nil in E as [_ E]; discriminate.
  - intros _ E; apply app_eq_nil in E as [_ E]; discriminate.
  - unfold App.settle.
    destruct (nth_error (App.pending s) k) as [c|]; [|exact H].
    destruct (App.outcome P c resp); simpl; discriminate.
  - unfold App.fire.
    destruct (nth_error (App.timers s) k) as [t|]; [|exact H].
    simpl. destruct (negb _); [discriminate | exact H].
Qed.

(** Whenever the status is [PROCESSING], at least one call to the
    inference client is still under way: the form is never left disabled
    with nothing to wait for. *)
Theorem processing_has_call (P : App.Platform) (s : App.State) :
  App.reachable P s ->
  App.status s = PROCESSING -> App.pending s <> [].
Proof.
  induction 1 as [t0 | s e _ IH He].
  - discriminate.
  - apply busyHasCall_step; exact IH.
Qed.

Lemma processing_has_call_witness :
  let s := App.run Scenario.secure (App.initial Scenario.t0)
             [App.Change (js "call mom"); App.Submit; App.Tick 5000] in
  App.status s = PROCESSING /\ App.pending s <> [].
Proof.
  intros s. split; [reflexivity|].
  apply (@processing_has_call Scenario.secure s);
    [apply reachable_run; [constructor | vm_compute; reflexivity]
    | reflexivity].
Defined.

Lemma outcome_no_key (P : App.Platform) (c : App.Call)
  (resp : GeminiService.Response) :
  truthy_opt (App.apiKey P) = false ->
  App.outcome P c resp = inl GeminiService.ApiKeyNotFound.
Proof.
  intros H; unfold App.outcome, GeminiService.parseInput; simpl.
  rewrite H; reflexivity.
Qed.

(** Without a configured API key nothing ever enters the history, and
    every call ends in [ERROR] with the failure message, whatever the
    provider would have answered. *)
Theorem no_key_no_history (P : App.Platform) (s : App.State) :
  truthy_opt (App.apiKey P) = false ->
  App.reachable P s ->
  App.history s = [] /\
  (forall k c resp uuid,
     nth_error (App.pending s) k = Some c ->
     App.status (App.settle P s k resp uuid) = ERROR /\
     App.errorMsg (App.settle P s k resp uuid) = Some App.failureMessage).
Proof.
  intros Hk Hr; split.
  - induction Hr as [t0 | s e _ IH He]; [reflexivity|].
    rewrite history_step.
    destruct (App.created P s e) as [it|] eqn:E; [|exact IH].
    apply created_inv in E as (k & resp & uuid & c & out & _ & _ & Ho & _).
    rewrite (@outcome_no_key P c resp Hk) in Ho; discriminate.
  - intros k c resp uuid Hn; unfold App.settle.
    rewrite Hn, (@outcome_no_key P c resp Hk); simpl; auto.
Qed.

Lemma no_key_no_history_witness :
  let P := {| App.apiKey := None; App.zone := js "UTC";
              App.hasRandomUUID := true |} in
  let s := App.run P (App.initial Scenario.t0)
             [App.Change (js "call mom"); App.Submit; App.Tick 800;
              App.Settle 0 (GeminiService.Fulfilled (Some Scenario.fullBody))
                (js "uuid-1");
              App.Change (js "again"); App.Submit] in
  App.history s = [] /\
  App.status
    (App.settle P s 0 (GeminiService.Fulfilled (Some Scenario.fullBody))
       (js "uuid-2")) = ERROR.
Proof.
  intros P s.
  assert (Hr : App.reachable P s)
    by (apply reachable_run; [constructor | vm_compute; reflexivity]).
  destruct (@no_key_no_history P s eq_refl Hr) as [Hh Hs].
  split; [exact Hh|].
  apply (Hs 0 {| App.input := GeminiService.Text (js "again");
                 App.started := (Scenario.t0 + 800)%Z;
                 App.closure_status := ERROR; App.fromText := true |}).
  reflexivity.
Defined.

Lemma history_run (P : App.Platform) (tr : list App.Event) (s : App.State) :
  App.history (App.run P s tr) = rev (App.inserted P s tr) ++ App.history s.
Proof.
  revert s; induction tr as [|e tr IH]; intros s; simpl; [reflexivity|].
  rewrite IH, history_step.
  destruct (App.created P s e) as [it|]; simpl; [|reflexivity].
  rewrite <- app_assoc; reflexivity.
Qed.

(** A history item is never removed or altered: after any sequence of
    events it is still in the history, moved back by the number of items
    created since. *)
Theorem history_items_persist (P : App.Platform) (s : App.State)
  (tr : list App.Event) (i : nat) (it : HistoryItem) :
  nth_error (App.history s) i = Some it ->
  nth_error (App.history (App.run P s tr))
            (List.length (App.inserted P s tr) + i) = Some it.
Proof.
  intros H. rewrite history_run.
  rewrite nth_error_app2 by (rewrite length_rev; lia).
  rewrite length_rev.
  replace (List.length (App.inserted P s tr) + i
           - List.length (App.inserted P s tr)) with i by lia.
  exact H.
Qed.

Lemma history_items_persist_witness :
  let P := Scenario.secure in
  let s := App.run P (App.initial Scenario.t0) Scenario.oneCycle in
  let tr := [App.Tick 2000; App.Fire 0; App.Change (js "second"); App.Submit;
             App.Tick 700;
             App.Settle 0 (GeminiService.Fulfilled (Some Scenario.fullBody))
               (js "uuid-2")] in
  exists it,
    nth_error (App.history s) 0 = Some it /\
    item_id it = Some (JString (js "uuid-1")) /\
    nth_error (App.history (App.run P s tr)) 1 = Some it.
Proof.
  intros P s tr.
  destruct (nth_error (App.history s) 0) as [it|] eqn:E;
    [|vm_compute in E; discriminate].
  exists it; split; [reflexivity|]. split.
  - vm_compute in E. injection E as <-. vm_compute; reflexivity.
  - apply (@history_items_persist P s tr 0 it E).
Defined.

(* ===================================================================== *)
(** * Decimal numerals                                                    *)
(* ===================================================================== *)

Lemma codes_uint_codes (u : Decimal.uint) :
  codes_uint (uint_codes u) = Some u.
Proof.
  induction u; simpl; try reflexivity; rewrite IHu; reflexivity.
Qed.

Lemma uint_codes_inj (u u' : Decimal.uint) :
  uint_codes u = uint_codes u' -> u = u'.
Proof.
  intros H. pose proof (codes_uint_codes u) as E.
  rewrite H, codes_uint_codes in E. congruence.
Qed.

Lemma uint_codes_digits (u : Decimal.uint) :
  Forall (fun c => (48 <= c <= 57)%N) (uint_codes u).
Proof.
  induction u; simpl; constructor; auto; unfold digit; lia.
Qed.

Lemma pos_codes_head (p : positive) :
  exists c r, uint_codes (Pos.to_uint p) = c :: r /\ (48 <= c <= 57)%N.
Proof.
  pose proof (uint_codes_digits (Pos.to_uint p)) as F.
  destruct (uint_codes (Pos.to_uint p)) as [|c r] eqn:E.
  - exfalso. apply (DecimalPos.Unsigned.to_uint_nonnil p).
    apply uint_codes_inj; exact E.
  - inversion F; subst. exists c, r; auto.
Qed.

(** Different integers are written differently. *)
Lemma Z_toString_inj (a b : Z) : Z_toString a = Z_toString b -> a = b.
Proof.
  destruct a as [|p|p], b as [|q|q]; simpl; intros H; try reflexivity.
  - exfalso. apply (DecimalPos.Unsigned.to_uint_nonzero q).
    apply uint_codes_inj. symmetry; exact H.
  - discriminate.
  - exfalso. apply (DecimalPos.Unsigned.to_uint_nonzero p).
    apply uint_codes_inj. exact H.
  - apply uint_codes_inj, DecimalPos.Unsigned.to_uint_inj in H; congruence.
  - destruct (pos_codes_head p) as (c & r & E & Hc).
    rewrite E in H; injection H as -> _; lia.
  - discriminate.
  - destruct (pos_codes_head q) as (c & r & E & Hc).
    rewrite E in H; injection H as <- _; lia.
  - injection H as H.
    apply uint_codes_inj, DecimalPos.Unsigned.to_uint_inj in H; congruence.
Qed.

Lemma parseNat_toString (n : nat) : parseNat (nat_toString n) = Some n.
Proof.
  unfold nat_toString. destruct n as [|n]; [reflexivity|].
  change (Z.of_nat (S n)) with (Zpos (Pos.of_succ_nat n)).
  unfold Z_toString, parseNat.
  destruct (pos_codes_head (Pos.of_succ_nat n)) as (c & r & E & _).
  rewrite E, <- E, codes_uint_codes; simpl.
  rewrite DecimalPos.Unsigned.of_to; simpl.
  rewrite SuccNat2Pos.id_succ; reflexivity.
Qed.

(* ===================================================================== *)
(** * Identifiers of the history items                                    *)
(* ===================================================================== *)

Lemma NoDup_map_injective {A B : Type} (f : A -> B) (l : list A) :
  (forall x y, f x = f y -> x = y) -> NoDup l -> NoDup (map f l).
Proof.
  intros Hf; induction 1 as [|x l Hx _ IH]; simpl; constructor; auto.
  rewrite in_map_iff; intros (y & E & Hy). apply Hf in E; subst; auto.
Qed.

(** The ids in the history are the values [generateId] produced at each
    creation, newest first. *)
Lemma ids_run (P : App.Platform) (tr : list App.Event) (s : App.State) :
  map item_id (App.history (App.run P s tr)) =
  rev (map (fun c => Some (JString (App.generateId P (snd c) (fst c))))
           (creations P s tr))
  ++ map item_id (App.history s).
Proof.
  revert s; induction tr as [|e tr IH]; intros s; simpl; [reflexivity|].
  rewrite IH, history_step.
  destruct e as [v | | captured b m | k resp uuid | k | dt]; simpl;
    try reflexivity.
  destruct (nth_error (App.pending s) k) as [c|]; [|reflexivity].
  destruct (App.outcome P c resp) as [err|out]; [reflexivity|].
  simpl. rewrite <- app_assoc; simpl.
  rewrite (proj1 (newItem_fields P out uuid (App.clock s))); reflexivity.
Qed.

(** Where the browser has no [crypto.randomUUID], the ids of the history
    are pairwise distinct as long as no two items are created at the same
    millisecond. *)
Theorem ids_distinct_by_millisecond (P : App.Platform) (s : App.State)
  (tr : list App.Event) :
  App.hasRandomUUID P = false ->
  App.history s = [] ->
  NoDup (map fst (creations P s tr)) ->
  NoDup (map item_id (App.history (App.run P s tr))).
Proof.
  intros Hu Hh Hn. rewrite ids_run, Hh, app_nil_r.
  apply NoDup_rev.
  rewrite (map_ext _ (fun c => Some (JString (Z_toString (fst c)))))
    by (intros c; unfold App.generateId; rewrite Hu; reflexivity).
  rewrite <- (map_map fst (fun t => Some (JString (Z_toString t)))).
  apply NoDup_map_injective; [|exact Hn].
  intros x y H; injection H as H; apply Z_toString_inj; exact H.
Qed.

Lemma ids_distinct_by_millisecond_witness :
  let P := Scenario.insecure in
  let s := App.initial Scenario.t0 in
  let tr := [App.Change (js "a"); App.Submit;
             App.AudioComplete IDLE (js "AAAA") (js "audio/webm");
             App.Tick 1000;
             App.Settle 0 (GeminiService.Fulfilled (Some Scenario.fullBody))
               (js "uuid-1");
             App.Tick 1;
             App.Settle 0 (GeminiService.Fulfilled (Some Scenario.fullBody))
               (js "uuid-2")] in
  map fst (creations P s tr) = [1704067201000; 1704067201001]%Z /\
  NoDup (map item_id (App.history (App.run P s tr))).
Proof.
  intros P s tr.
  assert (E : map fst (creations P s tr) = [1704067201000; 1704067201001]%Z)
    by (vm_compute; reflexivity).
  split; [exact E|].
  apply (@ids_distinct_by_millisecond P s tr eq_refl eq_refl).
  rewrite E. constructor; [simpl; intros [H|[]]; discriminate|].
  constructor; [intros [] | constructor].
Defined.

(** Where the browser has [crypto.randomUUID], the ids of the history are
    pairwise distinct as long as the identifiers it returned at the
    creations are. *)
Theorem ids_distinct_by_uuid (P : App.Platform) (s : App.State)
  (tr : list App.Event) :
  App.hasRandomUUID P = true ->
  App.history s = [] ->
  NoDup (map snd (creations P s tr)) ->
  NoDup (map item_id (App.history (App.run P s tr))).
Proof.
  intros Hu Hh Hn. rewrite ids_run, Hh, app_nil_r.
  apply NoDup_rev.
  rewrite (map_ext _ (fun c => Some (JString (snd c))))
    by (intros c; unfold App.generateId; rewrite Hu; reflexivity).
  rewrite <- (map_map snd (fun u => Some (JString u))).
  apply NoDup_map_injective; [|exact Hn].
  intros x y H; injection H as H; exact H.
Qed.

Lemma ids_distinct_by_uuid_witness :
  let P := Scenario.secure in
  let s := App.initial Scenario.t0 in
  map snd (creations P s Scenario.twoAtOnce) = [js "uuid-1"; js "uuid-2"] /\
  NoDup (map item_id (App.history (App.run P s Scenario.twoAtOnce))).
Proof.
  intros P s.
  assert (E : map snd (creations P s Scenario.twoAtOnce)
              = [js "uuid-1"; js "uuid-2"])
    by (vm_compute; reflexivity).
  split; [exact E|].
  apply (@ids_distinct_by_uuid P s Scenario.twoAtOnce eq_refl eq_refl).
  rewrite E. constructor; [simpl; intros [H|[]]; discriminate|].
  constructor; [intros [] | constructor].
Defined.

(** ** The identifier and the time of a new item *)


Lemma creations_app (P : App.Platform) (tr tr' : list App.Event)
  (s : App.State) :
  creations P s (tr ++ tr')
  = creations P s tr ++ creations P (App.run P s tr) tr'.
Proof.
  revert s; induction tr as [|e tr IH]; intros s; [reflexivity|].
  cbn [creations app App.run]. rewrite IH.
  destruct e as [v | | captured b m | k resp uuid | k | dt]; try reflexivity.
  destruct (App.created P s (App.Settle k resp uuid)); reflexivity.
Qed.







(** When the clock is set back while a call is under way, the item is
    dated before the start of its call. *)
Example created_before_start :
  let P := Scenario.secure in
  let s := App.run P (App.initial Scenario.t0)
             [App.Change (js "a"); App.Submit; App.Tick (-1)] in
  map App.started (App.pending s) = [1704067200000%Z] /\
  map item_createdAt
      (App.history
         (App.step P s
            (App.Settle 0 (GeminiService.Fulfilled (Some Scenario.fullBody))
               (js "uuid-1"))))
  = [Some (JString (js "2023-12-31T23:59:59.999Z"))].
Proof. vm_compute; split; reflexivity. Qed.

(* ===================================================================== *)
(** * Text submissions, start to end                                      *)
(* ===================================================================== *)




(* ===================================================================== *)
(** * What typing, resets and the passing of time leave alone             *)
(* ===================================================================== *)

Lemma quiet_step (P : App.Platform) (s : App.State) (e : App.Event) :
  quiet e = true ->
  App.errorMsg (App.step P s e) = App.errorMsg s /\
  App.history (App.step P s e) = App.history s /\
  App.pending (App.step P s e) = App.pending s.
Proof.
  destruct e as [v | | captured b m | k resp uuid | k | dt]; simpl;
    try discriminate; intros _; auto.
  unfold App.fire. destruct (nth_error (App.timers s) k); auto.
Qed.

(** Typing in the text field, the firing of resets and the passing of time
    never change the error message, the history or the calls under way: in
    particular the reset of the status to [IDLE] leaves the error message
    on display until the next submission starts. *)
Theorem quiet_events_keep_error_and_history (P : App.Platform)
  (tr : list App.Event) (s : App.State) :
  forallb quiet tr = true ->
  App.errorMsg (App.run P s tr) = App.errorMsg s /\
  App.history (App.run P s tr) = App.history s /\
  App.pending (App.run P s tr) = App.pending s.
Proof.
  revert s; induction tr as [|e tr IH]; intros s; simpl; [auto|].
  intros H; apply andb_true_iff in H as [He Ht].
  destruct (IH (App.step P s e) Ht) as (A & B & C).
  destruct (@quiet_step P s e He) as (A' & B' & C').
  rewrite A, B, C; auto.
Qed.

Lemma quiet_events_keep_error_and_history_witness :
  let P := Scenario.secure in
  let s := App.run P (App.initial Scenario.t0) Scenario.failedCycle in
  let tr := [App.Tick 2000; App.Fire 0; App.Change (js "x")] in
  App.status (App.run P s tr) = IDLE /\
  App.errorMsg (App.run P s tr) = Some App.failureMessage.
Proof.
  intros P s tr. split; [reflexivity|].
  rewrite (proj1 (@quiet_events_keep_error_and_history P tr s eq_refl)).
  reflexivity.
Defined.

(* ===================================================================== *)
(** * Further properties of the inference client                          *)
(* ===================================================================== *)

(** [parseInput] returns a result exactly when the key is configured, the
    provider call is fulfilled with a non-empty body, and that body parses;
    the result is then the parsed value with the input text or the
    placeholder.  In every other case it fails. *)
Theorem parseInput_succeeds_iff (env : GeminiService.Env)
  (provider : GeminiService.Request -> GeminiService.Response)
  (input : GeminiService.Input) (out : GeminiService.Output) :
  GeminiService.parseInput env provider input = inr out <->
  truthy_opt (GeminiService.API_KEY env) = true /\
  exists body,
    provider (GeminiService.request env input)
    = GeminiService.Fulfilled (Some body) /\
    body <> [] /\
    Json.parse body = Some (GeminiService.data out) /\
    GeminiService.rawText out = expectedRawText input.
Proof.
  split; [apply parseInput_inr|].
  intros (Hk & body & Hp & Hb & Hj & Hr).
  rewrite parseInput_cases, Hk, Hp; simpl.
  destruct body as [|c body]; [congruence|].
  rewrite Hj. destruct out as [d r]; simpl in *; subst r; reflexivity.
Qed.

Lemma parseInput_succeeds_iff_witness :
  let out := {| GeminiService.data := JArray [];
                GeminiService.rawText := GeminiService.audioPlaceholder |} in
  GeminiService.parseInput Scenario.env
    (fun _ => GeminiService.Fulfilled (Some (js "[]")))
    (GeminiService.Audio (js "AAAA") (js "audio/webm")) = inr out.
Proof.
  intros out.
  apply (proj2 (@parseInput_succeeds_iff Scenario.env
                  (fun _ => GeminiService.Fulfilled (Some (js "[]")))
                  (GeminiService.Audio (js "AAAA") (js "audio/webm")) out)).
  split; [reflexivity|].
  exists (js "[]"); repeat split; try reflexivity; discriminate.
Defined.

Lemma strip_prefix_app (p s : jsstring) :
  Json.strip_prefix p (p ++ s) = Some s.
Proof.
  induction p as [|a p IH]; simpl; [destruct s; reflexivity|].
  rewrite N.eqb_refl; exact IH.
Qed.

(** The request identifies the input: a text is sent verbatim after the
    marker [[USER_INPUT]: ], an audio payload and its MIME type are sent
    unchanged, and the two kinds of request cannot be confused. *)
Theorem request_identifies_input (env : GeminiService.Env)
  (input : GeminiService.Input) :
  inputOf (GeminiService.request env input) = Some input.
Proof.
  destruct input as [text | d m]; [|reflexivity].
  unfold inputOf, GeminiService.request.
  cbn [GeminiService.parts GeminiService.contents].
  rewrite strip_prefix_app; reflexivity.
Qed.

(* ===================================================================== *)
(** * The recording timer display                                         *)
(* ===================================================================== *)

Lemma split_no_sep (sep : code_unit) (a : jsstring) :
  ~ In sep a -> split sep a = [a].
Proof.
  induction a as [|c a IH]; simpl; intros H; [reflexivity|].
  destruct (N.eqb c sep) eqn:E.
  - apply N.eqb_eq in E; subst; exfalso; apply H; left; reflexivity.
  - rewrite IH by (intros Hin; apply H; right; exact Hin). reflexivity.
Qed.

Lemma split_app_sep (sep : code_unit) (a b : jsstring) :
  ~ In sep a -> split sep (a ++ sep :: b) = a :: split sep b.
Proof.
  induction a as [|c a IH]; simpl; intros H.
  - rewrite N.eqb_refl; reflexivity.
  - destruct (N.eqb c sep) eqn:E.
    + apply N.eqb_eq in E; subst; exfalso; apply H; left; reflexivity.
    + rewrite IH by (intros Hin; apply H; right; exact Hin). reflexivity.
Qed.

Lemma Z_toString_chars (z : Z) :
  Forall (fun c => c = 45%N \/ (48 <= c <= 57)%N) (Z_toString z).
Proof.
  destruct z as [|p|p]; simpl.
  - constructor; [right; unfold digit; lia | constructor].
  - eapply Forall_impl; [|apply uint_codes_digits]. simpl; auto.
  - constructor; [left; reflexivity|].
    eapply Forall_impl; [|apply uint_codes_digits]. simpl; auto.
Qed.

Lemma nat_toString_digits (n : nat) :
  Forall (fun c => (48 <= c <= 57)%N) (nat_toString n).
Proof.
  unfold nat_toString. destruct n as [|n].
  - constructor; [unfold digit; lia | constructor].
  - change (Z.of_nat (S n)) with (Zpos (Pos.of_succ_nat n)).
    apply uint_codes_digits.
Qed.

Lemma below_forallb (f : nat -> bool) (k : nat) :
  forallb f (seq 0 k) = true -> forall n, n < k -> f n = true.
Proof.
  intros H n Hn. rewrite forallb_forall in H. apply H, in_seq; lia.
Qed.

Lemma secondsField_ok (r : nat) : r < 60 -> secondsFieldOk r = true.
Proof. apply below_forallb. vm_compute; reflexivity. Qed.

Lemma parseTime_fields (m r : nat) :
  r < 60 ->
  parseTime (nat_toString m ++ [58%N] ++ secondsField r) = Some (m * 60 + r).
Proof.
  intros Hr. unfold parseTime.
  pose proof (secondsField_ok Hr) as Hok.
  unfold secondsFieldOk in Hok.
  apply andb_true_iff in Hok as [Hok Hc].
  apply andb_true_iff in Hok as [Hl Hp].
  change ([58%N] ++ secondsField r) with (58%N :: secondsField r).
  rewrite split_app_sep.
  2:{ pose proof (nat_toString_digits m) as F.
      rewrite Forall_forall in F. intros Hin; apply F in Hin; lia. }
  rewrite split_no_sep.
  2:{ rewrite forallb_forall in Hc. intros Hin; apply Hc in Hin.
      rewrite N.eqb_refl in Hin; discriminate. }
  rewrite parseNat_toString.
  destruct (parseNat (secondsField r)) as [b|]; [|discriminate].
  apply Nat.eqb_eq in Hp; subst b.
  rewrite Hl. apply Nat.ltb_lt in Hr. rewrite Hr. reflexivity.
Qed.

(** The time display can be read back: the seconds field is exactly two
    digits and below 60, and minutes times 60 plus seconds is the number of
    seconds displayed.  Distinct durations are displayed differently. *)
Theorem formatTime_round_trip (n : nat) :
  parseTime (AudioRecorder.formatTime n) = Some n.
Proof.
  unfold AudioRecorder.formatTime.
  change (js ":") with [58%N].
  fold (secondsField (n mod 60)).
  rewrite parseTime_fields by (apply Nat.mod_upper_bound; lia).
  f_equal. pose proof (Nat.div_mod_eq n 60). lia.
Qed.

Example formatTime_examples :
  map AudioRecorder.formatTime [0; 5; 59; 60; 65; 600; 3725]
  = [js "0:00"; js "0:05"; js "0:59"; js "1:00"; js "1:05"; js "10:00";
     js "62:05"].
Proof. vm_compute; reflexivity. Qed.

Lemma list_ind3 {A : Type} (Q : list A -> Prop) :
  Q [] -> (forall a, Q [a]) -> (forall a b, Q [a; b]) ->
  (forall a b c r, Q r -> Q (a :: b :: c :: r)) ->
  forall l, Q l.
Proof.
  intros H0 H1 H2 H3.
  fix IH 1. intros [|a [|b [|c r]]];
    [apply H0 | apply H1 | apply H2 | apply H3, IH].
Qed.

Ltac decide_cmp :=
  repeat match goal with
         | |- context [(?a <=? ?b)%N] =>
             first [ replace (a <=? b)%N with true
                       by (symmetry; apply N.leb_le; lia)
                   | replace (a <=? b)%N with false
                       by (symmetry; apply N.leb_gt; lia) ]
         | |- context [(?a <? ?b)%N] =>
             first [ replace (a <? b)%N with true
                       by (symmetry; apply N.ltb_lt; lia)
                   | replace (a <? b)%N with false
                       by (symmetry; apply N.ltb_ge; lia) ]
         | |- context [(?a =? ?b)%N] =>
             first [ replace (a =? b)%N with true
                       by (symmetry; apply N.eqb_eq; lia)
                   | replace (a =? b)%N with false
                       by (symmetry; apply N.eqb_neq; lia) ]
         end.

Lemma b64char_cases (n : N) :
  (n < 26 /\ AudioRecorder.b64char n = 65 + n \/
   26 <= n < 52 /\ AudioRecorder.b64char n = 97 + (n - 26) \/
   52 <= n < 62 /\ AudioRecorder.b64char n = 48 + (n - 52) \/
   n = 62 /\ AudioRecorder.b64char n = 43 \/
   62 < n /\ AudioRecorder.b64char n = 47)%N.
Proof.
  unfold AudioRecorder.b64char.
  destruct (N.ltb_spec n 26); [left; auto|].
  destruct (N.ltb_spec n 52); [right; left; split; [lia | reflexivity]|].
  destruct (N.ltb_spec n 62);
    [right; right; left; split; [lia | reflexivity]|].
  destruct (N.eqb_spec n 62); [right; right; right; left; auto|].
  right; right; right; right; split; [lia | reflexivity].
Qed.

Lemma unb64_b64char (n : N) :
  (n < 64)%N -> unb64 (AudioRecorder.b64char n) = Some n.
Proof.
  intros H. unfold unb64.
  destruct (b64char_cases n)
    as [[Hn ->] | [[Hn ->] | [[Hn ->] | [[Hn ->] | [Hn ->]]]]];
    decide_cmp; cbn [andb]; f_equal; lia.
Qed.

Lemma b64char_range (n : N) :
  AudioRecorder.b64char n <> 44%N /\ AudioRecorder.b64char n <> 61%N.
Proof.
  destruct (b64char_cases n)
    as [[Hn ->] | [[Hn ->] | [[Hn ->] | [[Hn ->] | [Hn ->]]]]]; lia.
Qed.

Lemma triple_arith (a b c : N) :
  (a < 256 -> b < 256 -> c < 256 ->
   let w := a * 65536 + b * 256 + c in
   let w' := (((w / 262144) * 64 + (w / 4096) mod 64) * 64
              + (w / 64) mod 64) * 64 + w mod 64 in
   w / 262144 < 64 /\ w' = w /\
   w / 65536 = a /\ (w / 256) mod 256 = b /\ w mod 256 = c)%N.
Proof.
  intros Ha Hb Hc w w'; subst w w'.
  repeat split; zify; Z.to_euclidean_division_equations; lia.
Qed.

Lemma b64char_eqb_pad (n : N) : (AudioRecorder.b64char n =? 61)%N = false.
Proof. apply N.eqb_neq, b64char_range. Qed.

(** Base64 text decodes to the octets it was made from. *)
Lemma atob_base64 (l : list N) :
  Forall (fun x => (x < 256)%N) l -> atob (AudioRecorder.base64 l) = Some l.
Proof.
  induction l as [| a | a b | a b c r IH] using list_ind3; intros F.
  - reflexivity.
  - inversion F as [|? ? Ha _]; subst.
    cbn [AudioRecorder.base64 atob].
    rewrite !unb64_b64char
      by (zify; Z.to_euclidean_division_equations; lia).
    rewrite N.eqb_refl. do 2 f_equal.
    zify; Z.to_euclidean_division_equations; lia.
  - inversion F as [|? ? Ha F']; subst.
    inversion F' as [|? ? Hb _]; subst.
    cbn [AudioRecorder.base64 atob].
    rewrite !unb64_b64char
      by (zify; Z.to_euclidean_division_equations; lia).
    rewrite b64char_eqb_pad, N.eqb_refl.
    f_equal; f_equal; [|f_equal];
      zify; Z.to_euclidean_division_equations; lia.
  - inversion F as [|? ? Ha F1]; subst.
    inversion F1 as [|? ? Hb F2]; subst.
    inversion F2 as [|? ? Hc F3]; subst.
    cbn [AudioRecorder.base64 atob].
    destruct (triple_arith Ha Hb Hc) as (H1 & Hw & Ea & Eb & Ec).
    rewrite !unb64_b64char
      by (try exact H1; apply N.mod_lt; discriminate).
    rewrite !b64char_eqb_pad, (IH F3).
    cbv zeta. cbv zeta in Hw. rewrite Hw, Ea, Eb, Ec. reflexivity.
Qed.

Example atob_example :
  atob (js "GkXfow==") = Some [26; 69; 223; 163]%N.
Proof. vm_compute; reflexivity. Qed.



(* ===================================================================== *)
(** * Further properties of the audio capture unit                        *)
(* ===================================================================== *)





(** Each [stop] event that reaches a recorder starts exactly one read, and
    each finished read is exactly one call of the completion callback: the
    calls made and the reads still under way always add up to the stops
    delivered.  The callback is never called without a stop. *)
Theorem callback_once_per_stop (tr : list AudioRecorder.Event)
  (s : AudioRecorder.State) :
  List.length (AudioRecorder.completed (AudioRecorder.run s tr))
  + List.length (AudioRecorder.reading (AudioRecorder.run s tr))
  = List.length (AudioRecorder.completed s)
    + List.length (AudioRecorder.reading s) + stops s tr.
Proof.
  revert s; induction tr as [|e tr IH]; intros s; simpl; [lia|].
  rewrite IH. clear IH.
  assert (E : List.length (AudioRecorder.completed (AudioRecorder.step s e))
              + List.length (AudioRecorder.reading (AudioRecorder.step s e))
              = List.length (AudioRecorder.completed s)
                + List.length (AudioRecorder.reading s)
                + match e with
                  | AudioRecorder.Stopped r _ =>
                      if Nat.ltb r (List.length (AudioRecorder.recorders s))
                      then 1 else 0
                  | _ => 0
                  end).
  { destruct e as [tracks mime | | | r chunk | | f | i | ]; simpl; try lia.
    - unfold AudioRecorder.startRecording, AudioRecorder.drawVisualizer; simpl.
      destruct (AudioRecorder.canvasRef s); simpl; lia.
    - unfold AudioRecorder.stopRecording.
      destruct (AudioRecorder.mediaRecorderRef s);
        [destruct (AudioRecorder.isRecording s)|]; simpl; lia.
    - unfold AudioRecorder.onstop; simpl. rewrite update_nth.
      destruct (nth_error (AudioRecorder.recorders s) r) eqn:En; simpl.
      + assert (r < List.length (AudioRecorder.recorders s))
          by (apply nth_error_Some; congruence).
        apply Nat.ltb_lt in H; rewrite H; simpl. rewrite length_app; simpl; lia.
      + apply nth_error_None in En.
        destruct (Nat.ltb_spec r (List.length (AudioRecorder.recorders s)));
          simpl; lia.
    - unfold AudioRecorder.onloadend.
      destruct (AudioRecorder.reading s) as [|blob rest] eqn:Er; simpl;
        [rewrite Er; simpl; lia|].
      rewrite length_app; simpl; lia.
    - unfold AudioRecorder.frame. destruct (existsb _ _); simpl; lia.
    - unfold AudioRecorder.second. destruct (existsb _ _); simpl; lia. }
  lia.
Qed.

Lemma noLoop_step (s : AudioRecorder.State) (e : AudioRecorder.Event) :
  noLoop s ->
  match e with
  | AudioRecorder.Granted _ _ => AudioRecorder.isRecording s = false
  | _ => True
  end ->
  noLoop (AudioRecorder.step s e).
Proof.
  intros (Hf & Ha & Hc) He.
  destruct e as [tracks mime | | | r chunk | | f | i | ]; simpl.
  - assert (Ec : AudioRecorder.canvasRef s = false).
    { destruct (AudioRecorder.canvasRef s); [|reflexivity].
      rewrite (Hc eq_refl) in He; discriminate He. }
    unfold AudioRecorder.startRecording, AudioRecorder.drawVisualizer; simpl.
    rewrite Ec; simpl. repeat split; auto.
  - repeat split; auto.
  - unfold AudioRecorder.stopRecording.
    destruct (AudioRecorder.mediaRecorderRef s);
      [destruct (AudioRecorder.isRecording s) eqn:Er|]; simpl;
      repeat split; auto; try discriminate.
    intros Hx; rewrite Er; auto.
  - unfold AudioRecorder.onstop; simpl.
    destruct (nth_error _ r); simpl;
      repeat split; auto.
    rewrite Ha, Hf; reflexivity.
  - unfold AudioRecorder.onloadend.
    destruct (AudioRecorder.reading s); simpl; repeat split; auto.
  - unfold AudioRecorder.frame. rewrite Hf; simpl. repeat split; auto.
  - unfold AudioRecorder.second. destruct (existsb _ _); simpl;
      repeat split; auto.
  - unfold noLoop; simpl. rewrite Ha, Hf; simpl.
    repeat split; auto; discriminate.
Qed.

(** When every stream is granted while the component is not recording, no
    animation frame is ever requested: [drawVisualizer] runs before the
    canvas exists (it is rendered only once [isRecording] is true) and
    returns at its first test, so the bars are never drawn. *)
Theorem visualizer_never_starts (tr : list AudioRecorder.Event) :
  orderly AudioRecorder.mount tr = true ->
  AudioRecorder.frames (AudioRecorder.run AudioRecorder.mount tr) = [] /\
  AudioRecorder.animationFrameRef (AudioRecorder.run AudioRecorder.mount tr)
  = None.
Proof.
  assert (G : forall s, noLoop s -> orderly s tr = true ->
                        noLoop (AudioRecorder.run s tr)).
  { induction tr as [|e tr IH]; intros s Hs Ho; simpl; [exact Hs|].
    simpl in Ho. apply andb_true_iff in Ho as [He Ho].
    apply IH; [|exact Ho]. apply noLoop_step; [exact Hs|].
    destruct e; auto. apply negb_true_iff in He; exact He. }
  intros Ho.
  destruct (G AudioRecorder.mount) as (Hf & Ha & _); auto.
  repeat split; auto; discriminate.
Qed.

Lemma visualizer_never_starts_witness :
  let tr := [AudioRecorder.Granted 1 Scenario.mp4; AudioRecorder.Second 1;
             AudioRecorder.Frame 2; AudioRecorder.ClickStop;
             AudioRecorder.Stopped 0 Scenario.chunk; AudioRecorder.Loaded;
             AudioRecorder.Granted 1 Scenario.mp4] in
  AudioRecorder.isRecording (AudioRecorder.run AudioRecorder.mount tr) = true
  /\ AudioRecorder.frames (AudioRecorder.run AudioRecorder.mount tr) = [].
Proof.
  intros tr. split; [reflexivity|].
  apply (proj1 (@visualizer_never_starts tr eq_refl)).
Defined.

(** Without that order the loop does start: a second stream granted while
    the first recording is under way finds the canvas and requests a
    frame. *)
Example overlapping_grants_start_the_loop :
  AudioRecorder.frames
    (AudioRecorder.run AudioRecorder.mount
       [AudioRecorder.Granted 1 Scenario.mp4;
        AudioRecorder.Granted 1 Scenario.mp4]) = [2].
Proof. reflexivity. Qed.

Lemma seconds_fields (s : AudioRecorder.State) (i k : nat) :
  existsb (Nat.eqb i) (AudioRecorder.intervals s) = true ->
  AudioRecorder.recordingTime (seconds s i k)
  = AudioRecorder.recordingTime s + k /\
  AudioRecorder.intervals (seconds s i k) = AudioRecorder.intervals s.
Proof.
  intros Hi; induction k as [|k [IH1 IH2]]; simpl; [split; [lia | reflexivity]|].
  unfold AudioRecorder.second. rewrite IH2, Hi; simpl.
  split; [lia | reflexivity].
Qed.

Lemma seconds_refs (s : AudioRecorder.State) (i k : nat) :
  AudioRecorder.timerRef (seconds s i k) = AudioRecorder.timerRef s /\
  AudioRecorder.isRecording (seconds s i k) = AudioRecorder.isRecording s /\
  AudioRecorder.mediaRecorderRef (seconds s i k)
  = AudioRecorder.mediaRecorderRef s.
Proof.
  induction k as [|k IH]; simpl; [auto|].
  unfold AudioRecorder.second.
  destruct (existsb (Nat.eqb i) (AudioRecorder.intervals (seconds s i k)));
    simpl; exact IH.
Qed.

Lemma existsb_snoc_self (l : list nat) (i : nat) :
  existsb (Nat.eqb i) (l ++ [i]) = true.
Proof.
  rewrite existsb_app; simpl. rewrite Nat.eqb_refl; simpl.
  apply orb_true_r.
Qed.

Lemma remove_id_gone (i : nat) (l : list nat) :
  existsb (Nat.eqb i) (AudioRecorder.remove_id i l) = false.
Proof.
  unfold AudioRecorder.remove_id.
  induction l as [|j l IH]; simpl; [reflexivity|].
  destruct (Nat.eqb i j) eqn:E; simpl; [exact IH|]. rewrite E; exact IH.
Qed.

(** The duration shown while recording: a new recording starts it at zero,
    each tick of its interval adds one second, and once the recording is
    stopped that interval no longer advances it. *)
Theorem recording_time_counts_seconds (s : AudioRecorder.State)
  (tracks : nat) (mime : jsstring) (k : nat) :
  let s1 := AudioRecorder.startRecording s tracks mime in
  exists i,
    AudioRecorder.timerRef s1 = Some i /\
    AudioRecorder.recordingTime (seconds s1 i k) = k /\
    (0 < i ->
     let s2 := AudioRecorder.stopRecording (seconds s1 i k) in
     AudioRecorder.isRecording s2 = false /\
     AudioRecorder.second s2 i = s2 /\
     AudioRecorder.recordingTime s2 = k).
Proof.
  intros s1.
  assert (E : exists i, AudioRecorder.timerRef s1 = Some i /\
                        AudioRecorder.recordingTime s1 = 0 /\
                        AudioRecorder.isRecording s1 = true /\
                        AudioRecorder.mediaRecorderRef s1 <> None /\
                        existsb (Nat.eqb i) (AudioRecorder.intervals s1) = true).
  { subst s1; unfold AudioRecorder.startRecording; simpl.
    eexists; repeat split; [discriminate | apply existsb_snoc_self]. }
  destruct E as (i & Ht & H0 & Hrec & Hm & Hi).
  exists i. destruct (seconds_fields s1 i k Hi) as [Hk Hint].
  split; [exact Ht|]. split; [lia|].
  intros Hpos s2.
  destruct (seconds_refs s1 i k) as (Ht' & Hrec' & Hm').
  rewrite Ht in Ht'; rewrite Hrec in Hrec'.
  subst s2. unfold AudioRecorder.stopRecording.
  destruct (AudioRecorder.mediaRecorderRef (seconds s1 i k)) as [r|];
    [|rewrite <- Hm' in Hm; congruence].
  rewrite Hrec', Ht'.
  destruct i as [|i]; [lia|]. simpl.
  split; [reflexivity|]. split; [|lia].
  unfold AudioRecorder.second; simpl.
  rewrite (remove_id_gone (S i)). reflexivity.
Qed.

Lemma recording_time_counts_seconds_witness :
  let s1 := AudioRecorder.startRecording AudioRecorder.mount 1 Scenario.mp4 in
  AudioRecorder.timerRef s1 = Some 1 /\
  AudioRecorder.recordingTime (seconds s1 1 65) = 65 /\
  AudioRecorder.formatTime
    (AudioRecorder.recordingTime
       (AudioRecorder.second
          (AudioRecorder.stopRecording (seconds s1 1 65)) 1)) = js "1:05".
Proof.
  intros s1.
  destruct (@recording_time_counts_seconds AudioRecorder.mount 1
              Scenario.mp4 65) as (i & Ht & Hk & Hs).
  fold s1 in Ht, Hk, Hs.
  assert (Ei : i = 1) by (vm_compute in Ht; congruence). subst i.
  destruct (Hs ltac:(lia)) as (_ & E2 & E3).
  split; [exact Ht|]. split; [exact Hk|].
  rewrite E2, E3. reflexivity.
Defined.











(* ===================================================================== *)
(** * The clock of the header                                             *)
(* ===================================================================== *)

Lemma pad_chars (w : nat) (z : Z) :
  Forall (fun c => c = 45%N \/ (48 <= c <= 57)%N) (pad w z).
Proof.
  unfold pad, padStart0. apply Forall_app; split.
  - apply Forall_forall. intros c Hc. apply repeat_spec in Hc; subst.
    right; unfold digit; lia.
  - apply Z_toString_chars.
Qed.

Lemma pad_without (w : nat) (z : Z) (c : code_unit) :
  c <> 45%N -> ~ (48 <= c <= 57)%N -> ~ In c (pad w z).
Proof.
  intros H1 H2 Hin. pose proof (pad_chars w z) as F.
  rewrite Forall_forall in F. destruct (F c Hin); auto.
Qed.

Lemma pad2_secondsField (z : Z) :
  (0 <= z)%Z -> pad 2 z = secondsField (Z.to_nat z).
Proof.
  intros H. unfold pad, secondsField, nat_toString.
  rewrite Z2Nat.id by exact H. reflexivity.
Qed.

Ltac not_in_pieces :=
  cbv zeta; rewrite ?in_app_iff; cbn [In];
  repeat match goal with
         | |- ~ _ => intros ?H
         | H : _ \/ _ |- _ => destruct H as [H | H]
         | H : In _ (_ ++ _) |- _ => apply in_app_iff in H
         | H : In _ (_ :: _) |- _ => cbn [In] in H
         | H : In ?c (pad ?w ?z) |- _ =>
             exfalso; revert H; apply pad_without; lia
         | H : False |- _ => exact H
         | H : _ = _ |- _ => discriminate H
         end.

Lemma toISOString_shape (t : Z) :
  exists date,
    ~ In 84%N date /\
    toISOString t
    = date ++ 84%N :: clockText t
           ++ 46%N :: (pad 3 ((t mod msPerDay) mod 1000) ++ js "Z").
Proof.
  unfold toISOString, clockText.
  destruct (civil_from_days (t / msPerDay)) as [[y m] d].
  match goal with
  | |- context [(?year ++ js "-" ++ pad 2 m ++ js "-" ++ pad 2 d ++ _)] =>
      exists (year ++ js "-" ++ pad 2 m ++ js "-" ++ pad 2 d)
  end.
  split.
  - destruct ((0 <=? y)%Z && (y <=? 9999)%Z); [|destruct (y <? 0)%Z];
      change (js "-") with [45%N]; not_in_pieces.
  - change (js "T") with [84%N]. change (js ".") with [46%N].
    rewrite <- !app_assoc. reflexivity.
Qed.

(** For every time value a [Date] can hold, the header shows the time of
    day in UTC as two-digit hours, minutes and seconds separated by colons
    and followed by Z: the two splits always find their piece, whatever the
    year. *)
Theorem headerClock_is_time_of_day (t : Z) :
  (-8640000000000000 <= t <= 8640000000000000)%Z ->
  let ms := (t mod 86400000)%Z in
  exists h m sec,
    App.headerClock t
    = Some (h ++ js ":" ++ m ++ js ":" ++ sec ++ js "Z") /\
    List.length h = 2 /\ List.length m = 2 /\ List.length sec = 2 /\
    parseNat h = Some (Z.to_nat (ms / 3600000)) /\
    parseNat m = Some (Z.to_nat ((ms / 60000) mod 60)) /\
    parseNat sec = Some (Z.to_nat ((ms / 1000) mod 60)).
Proof.
  intros Ht ms.
  assert (Hv : validDate t = true).
  { unfold validDate. apply andb_true_iff; split; apply Z.leb_le; lia. }
  assert (Hms : (0 <= ms < 86400000)%Z) by (apply Z.mod_pos_bound; lia).
  exists (pad 2 (ms / 3600000)), (pad 2 ((ms / 60000) mod 60)),
         (pad 2 ((ms / 1000) mod 60)).
  split.
  - unfold App.headerClock. rewrite Hv.
    destruct (toISOString_shape t) as (date & Hd & ->).
    rewrite split_app_sep by exact Hd.
    rewrite split_no_sep.
    2:{ unfold clockText. change (js ":") with [58%N].
        change (js "Z") with [90%N]. not_in_pieces. }
    cbn [nth_error].
    rewrite split_app_sep.
    2:{ unfold clockText. change (js ":") with [58%N]. not_in_pieces. }
    cbn [nth_error]. unfold clockText. fold ms.
    rewrite <- !app_assoc. reflexivity.
  - assert (B : forall z, (0 <= z < 60)%Z ->
                  List.length (pad 2 z) = 2 /\
                  parseNat (pad 2 z) = Some (Z.to_nat z)).
    { intros z Hz. rewrite pad2_secondsField by lia.
      assert (Hn : Z.to_nat z < 60) by lia.
      pose proof (secondsField_ok Hn) as Hok. unfold secondsFieldOk in Hok.
      apply andb_true_iff in Hok as [Hok _].
      apply andb_true_iff in Hok as [Hl Hp].
      apply Nat.eqb_eq in Hl.
      destruct (parseNat (secondsField (Z.to_nat z))) as [b|];
        [|discriminate].
      apply Nat.eqb_eq in Hp; subst b; auto. }
    destruct (B (ms / 3600000)%Z) as [A1 A2];
      [zify; Z.to_euclidean_division_equations; lia|].
    destruct (B ((ms / 60000) mod 60)%Z) as [B1 B2];
      [apply Z.mod_pos_bound; lia|].
    destruct (B ((ms / 1000) mod 60)%Z) as [C1 C2];
      [apply Z.mod_pos_bound; lia|].
    repeat split; assumption.
Qed.

Lemma headerClock_is_time_of_day_witness :
  let t := 1704112496789%Z in
  (-8640000000000000 <= t <= 8640000000000000)%Z /\
  exists h m sec,
    App.headerClock t
    = Some (h ++ js ":" ++ m ++ js ":" ++ sec ++ js "Z") /\
    parseNat h = Some 12 /\ parseNat m = Some 34 /\ parseNat sec = Some 56.
Proof.
  intros t.
  assert (Ht : (-8640000000000000 <= t <= 8640000000000000)%Z)
    by (unfold t; lia).
  split; [exact Ht|].
  destruct (@headerClock_is_time_of_day t Ht)
    as (h & m & sec & E & _ & _ & _ & Hh & Hm & Hs).
  exists h, m, sec.
  split; [exact E | split; [exact Hh | split; [exact Hm | exact Hs]]].
Defined.

Example headerClock_example :
  App.headerClock 1709251199999 = Some (js "23:59:59Z").
Proof. vm_compute; reflexivity. Qed.

(** The two ends of the range, and the first time value past it. *)
Example headerClock_range :
  App.headerClock (-8640000000000000) = Some (js "00:00:00Z") /\
  App.headerClock 8640000000000000 = Some (js "00:00:00Z") /\
  App.headerClock 8640000000000001 = None.
Proof. vm_compute; repeat split; reflexivity. Qed.

(* ===================================================================== *)
(** * Calls, resets and recorders are accounted for                       *)
(* ===================================================================== *)

Lemma remove_nth_length {A : Type} (l : list A) :
  forall k, k < List.length l ->
            S (List.length (App.remove_nth k l)) = List.length l.
Proof.
  induction l as [|x l IH]; intros [|k]; simpl; intros H; try lia.
  rewrite IH by lia; reflexivity.
Qed.

Lemma tally_step (P : App.Platform) (s : App.State) (e : App.Event) :
  let '(a, b, c) := tally P s [e] in
  List.length (App.pending (App.step P s e)) + b
  = List.length (App.pending s) + a /\
  List.length (App.timers (App.step P s e)) + c
  = List.length (App.timers s) + b.
Proof.
  destruct e as [v | | captured bd m | k resp uuid | k | dt]; simpl.
  - lia.
  - unfold App.handleTextSubmit.
    destruct (truthy (trim (App.textInput s))); simpl;
      rewrite ?length_app; simpl; lia.
  - rewrite length_app; simpl; lia.
  - unfold App.settle.
    destruct (nth_error (App.pending s) k) as [c|] eqn:E.
    + assert (Hk : k < List.length (App.pending s))
        by (apply nth_error_Some; congruence).
      pose proof (remove_nth_length (App.pending s) Hk).
      apply Nat.ltb_lt in Hk; rewrite Hk.
      destruct (App.outcome P c resp); simpl; rewrite length_app; simpl; lia.
    + apply nth_error_None in E.
      destruct (Nat.ltb_spec k (List.length (App.pending s))); [lia|].
      simpl; lia.
  - unfold App.fire.
    destruct (nth_error (App.timers s) k) as [t|] eqn:E.
    + assert (Hk : k < List.length (App.timers s))
        by (apply nth_error_Some; congruence).
      pose proof (remove_nth_length (App.timers s) Hk).
      apply Nat.ltb_lt in Hk; rewrite Hk. simpl; lia.
    + apply nth_error_None in E.
      destruct (Nat.ltb_spec k (List.length (App.timers s))); [lia|].
      simpl; lia.
  - lia.
Qed.

(** Nothing is lost or doubled: along any sequence of events the calls
    still under way are the calls started less the calls settled, and the
    resets still scheduled are the calls settled less the resets fired.
    Every settled call schedules exactly one reset, and a reset fires at
    most once. *)
Theorem calls_and_resets_balance (P : App.Platform) (tr : list App.Event)
  (s : App.State) :
  let '(a, b, c) := tally P s tr in
  List.length (App.pending (App.run P s tr)) + b
  = List.length (App.pending s) + a /\
  List.length (App.timers (App.run P s tr)) + c
  = List.length (App.timers s) + b.
Proof.
  revert s; induction tr as [|e tr IH]; intros s; [simpl; lia|].
  pose proof (tally_step P s e) as Hs.
  specialize (IH (App.step P s e)).
  cbn [tally App.run] in *.
  destruct (tally P (App.step P s e) tr) as [[a b] c].
  destruct e as [v | | captured bd m | k resp uuid | k | dt];
    repeat match goal with
           | |- context [if ?x then _ else _] => destruct x
           | H : context [if ?x then _ else _] |- _ => destruct x
           end; lia.
Qed.

Example calls_and_resets_example :
  tally Scenario.secure (App.initial Scenario.t0)
    (Scenario.staleReset ++ [App.Fire 0; App.Fire 0; App.Settle 3
       (GeminiService.Rejected (js "x")) (js "u")])
  = (2, 1, 1).
Proof. vm_compute; reflexivity. Qed.

Lemma update_other {A : Type} (f : A -> A) (l : list A) :
  forall k r, k <> r ->
              nth_error (AudioRecorder.update k f l) r = nth_error l r.
Proof.
  induction l as [|x l IH]; intros [|k] [|r] H; simpl; auto; try lia.
Qed.

Lemma update_length {A : Type} (f : A -> A) (l : list A) :
  forall k, List.length (AudioRecorder.update k f l) = List.length l.
Proof.
  induction l as [|x l IH]; intros [|k]; simpl; auto.
Qed.

Lemma superseded_step (r : nat) (s : AudioRecorder.State)
  (e : AudioRecorder.Event) :
  superseded r s ->
  sparing r e = true ->
  superseded r (AudioRecorder.step s e) /\
  nth_error (AudioRecorder.recorders (AudioRecorder.step s e)) r
  = nth_error (AudioRecorder.recorders s) r.
Proof.
  intros (Hlt & r' & Hr & Hrr) Hsp. unfold superseded.
  destruct e as [tracks mime | | | r0 chunk | | f | i | ]; simpl.
  - unfold AudioRecorder.startRecording, AudioRecorder.drawVisualizer; simpl.
    destruct (AudioRecorder.canvasRef s); simpl;
      rewrite length_app, nth_error_app1 by lia; simpl;
      (split; [split; [lia | eexists; split; [reflexivity | lia]]
              | reflexivity]).
  - split; [split; [lia | eauto] | reflexivity].
  - unfold AudioRecorder.stopRecording. rewrite Hr.
    destruct (AudioRecorder.isRecording s); simpl.
    + rewrite update_length, update_other by lia.
      split; [split; [lia | eauto] | reflexivity].
    + split; [split; [lia | eauto] | reflexivity].
  - simpl in Hsp. apply negb_true_iff, Nat.eqb_neq in Hsp.
    unfold AudioRecorder.onstop; simpl.
    destruct (nth_error _ r0); simpl;
      rewrite update_length, update_other by exact Hsp;
      (split; [split; [lia | eauto] | reflexivity]).
  - unfold AudioRecorder.onloadend.
    destruct (AudioRecorder.reading s); simpl;
      (split; [split; [lia | eauto] | reflexivity]).
  - unfold AudioRecorder.frame.
    destruct (existsb _ _); simpl;
      (split; [split; [lia | eauto] | reflexivity]).
  - unfold AudioRecorder.second.
    destruct (existsb _ _); simpl;
      (split; [split; [lia | eauto] | reflexivity]).
  - split; [split; [lia | eauto] | reflexivity].
Qed.

(** Once a later recorder has taken its place in [mediaRecorderRef], a
    recorder is out of the component's reach: no click, granted stream,
    frame, tick of the timer, finished read, discarding of the component or
    stop of another recorder changes it, for the component never calls
    [stop] on it.  So, unless the platform itself ends its recording, a
    recorder that was recording when it was superseded stays recording. *)
Theorem superseded_recorder_never_stopped (r : nat)
  (tr : list AudioRecorder.Event) (s : AudioRecorder.State) :
  superseded r s ->
  forallb (sparing r) tr = true ->
  nth_error (AudioRecorder.recorders (AudioRecorder.run s tr)) r
  = nth_error (AudioRecorder.recorders s) r.
Proof.
  revert s; induction tr as [|e tr IH]; intros s H Hsp; simpl;
    [reflexivity|].
  simpl in Hsp. apply andb_true_iff in Hsp as [He Htr].
  destruct (superseded_step e H He) as [H' E].
  rewrite (IH _ H' Htr). exact E.
Qed.

Lemma superseded_recorder_never_stopped_witness :
  let s := AudioRecorder.run AudioRecorder.mount
             [AudioRecorder.Granted 1 Scenario.mp4;
              AudioRecorder.Granted 1 Scenario.mp4] in
  let tr := [AudioRecorder.ClickStop; AudioRecorder.Stopped 1 Scenario.chunk;
             AudioRecorder.Loaded; AudioRecorder.Unmount] in
  superseded 0 s /\
  forallb (sparing 0) tr = true /\
  option_map AudioRecorder.state
    (nth_error (AudioRecorder.recorders (AudioRecorder.run s tr)) 0)
  = Some AudioRecorder.Recording.
Proof.
  intros s tr.
  assert (H : superseded 0 s).
  { split; [simpl; lia|]. exists 1; split; [reflexivity | lia]. }
  split; [exact H | split; [reflexivity|]].
  rewrite (@superseded_recorder_never_stopped 0 tr s H eq_refl). reflexivity.
Defined.

(** The platform ending the recording of a superseded recorder is what
    does change it. *)
Example superseded_ended_by_platform :
  let s := AudioRecorder.run AudioRecorder.mount
             [AudioRecorder.Granted 1 Scenario.mp4;
              AudioRecorder.Granted 1 Scenario.mp4] in
  map AudioRecorder.state
      (AudioRecorder.recorders
         (AudioRecorder.step s (AudioRecorder.Stopped 0 Scenario.chunk)))
  = [AudioRecorder.Inactive; AudioRecorder.Recording].
Proof. vm_compute; reflexivity. Qed.
